(** * Editor.js: a facade over the Quill rich-text widget

  A shallow embedding of [src/Editor.js].  The facade owns one widget
  instance and one event emitter, forwards its methods to the widget, reads
  the editor content back through the DOM and installs a sanitizer on the
  widget library's shared link format.

  The widget (Quill), the HTML parser and serializer of the DOM, the event
  emitter (eventemitter3) and the host program with its handlers are
  collaborators of the file, not part of it.  The widget, the HTML
  algorithms and the host are interfaces, so every fact holds for whatever
  implements them; the emitter, the inline style declarations and the DOM
  node store are small executable models.  A handler may throw: the
  emitter does not catch, so the exception ends the dispatch and goes
  through the widget to the caller of the facade. *)

From Stdlib Require Import ZArith Floats.SpecFloat.
From stdpp Require Import base option list strings pretty gmap.

Local Open Scope string_scope.
Local Open Scope list_scope.
Set Warnings "-register-all".

(** ** JavaScript strings *)

Module JsString.

(** [s.indexOf(pat)] scanning from position [i]: the first position at which
    [pat] occurs, [-1] when it does not occur. *)
Fixpoint indexOf_from (s pat : string) (i : Z) : Z :=
  if String.prefix pat s then i
  else match s with
       | EmptyString => (-1)%Z
       | String _ s' => indexOf_from s' pat (i + 1)
       end.

Definition indexOf (s pat : string) : Z := indexOf_from s pat 0.

End JsString.

(** ** The link sanitizer installed by the constructor *)

Module Link.
Import JsString.

(** [Link.sanitize = function(url) { ... }] (Editor.js, lines 33-40). *)
Definition sanitize (url : string) : string :=
  let urlStartsWithHttp := (indexOf url "http" =? 0)%Z in
  if negb urlStartsWithHttp then "https://" +:+ url else url.

(** A destination that begins with the insecure or the secure HTTP scheme
    prefix. *)
Definition has_http_scheme (url : string) : bool :=
  String.prefix "http://" url || String.prefix "https://" url.

End Link.

(** ** JavaScript values *)

Module Js.

(** Identity of an object (a DOM element, a widget, an emitter). *)
Abbreviation ref := positive.

(** The values of the language.  [VDocumentAll] is the one object that is
    falsy, [document.all]; every other object is [VObject]. *)
Inductive value :=
| VUndefined
| VNull
| VBool (b : bool)
| VNumber (x : spec_float)
| VBigInt (n : Z)
| VString (s : string)
| VSymbol (r : ref)
| VObject (r : ref)
| VDocumentAll.

(** The number literal [0]. *)
Definition zero : value := VNumber (S754_zero false).
Definition negative_zero : value := VNumber (S754_zero true).
Definition NaN : value := VNumber S754_nan.

(** Numbers that are whole, for indices and lengths. *)
Definition of_pos (p : positive) : value := VNumber (S754_finite false p 0).

(** Truthiness (the abstract operation ToBoolean). *)
Definition ToBoolean (v : value) : bool :=
  match v with
  | VUndefined | VNull => false
  | VBool b => b
  | VNumber (S754_zero _) | VNumber S754_nan => false
  | VNumber _ => true
  | VBigInt n => negb (n =? 0)%Z
  | VString s => negb (String.eqb s "")
  | VSymbol _ => true
  | VObject _ => true
  | VDocumentAll => false
  end.

(** [a === b]: values of different types are never equal. *)
Definition strict_equal (a b : value) : bool :=
  match a, b with
  | VUndefined, VUndefined | VNull, VNull => true
  | VBool x, VBool y => Bool.eqb x y
  | VNumber x, VNumber y => SFeqb x y
  | VBigInt x, VBigInt y => (x =? y)%Z
  | VString x, VString y => String.eqb x y
  | VSymbol x, VSymbol y => Pos.eqb x y
  | VObject x, VObject y => Pos.eqb x y
  | VDocumentAll, VDocumentAll => true
  | _, _ => false
  end.

(** [a || b]. *)
Definition logical_or (a b : value) : value := if ToBoolean a then a else b.

(** The [i]-th formal parameter of a call: [undefined] when the caller
    passed fewer arguments. *)
Definition arg (i : nat) (args : list value) : value :=
  default VUndefined (args !! i).

(** What a call can throw: an [Error] object built by the facade, a
    [TypeError] of the language, or whatever other code raised. *)
Inductive exn :=
| JsError (message : string)
| TypeError (message : string)
| Raised (payload : value).

End Js.

(** ** The DOM: node trees, selectors, inline style *)

Module Dom.

Record attributes := Attributes {
  tagName : string;
  classList : list string;
  style : list (string * string);
  otherAttributes : list (string * string)
}.

Inductive node :=
| Text (data : string)
| Element (a : attributes) (childNodes : list node).

(** A descendant is named by the child indices leading to it. *)
Abbreviation path := (list nat).

Definition children (n : node) : list node :=
  match n with Text _ => [] | Element _ kids => kids end.

Definition set_children (kids : list node) (n : node) : node :=
  match n with Text _ => n | Element a _ => Element a kids end.

(** The two selectors the facade uses: [".cls"] and ["tag"]. *)
Inductive selector := ByClass (cls : string) | ByTag (tag : string).

Definition selects (sel : selector) (n : node) : bool :=
  match n with
  | Text _ => false
  | Element a _ =>
      match sel with
      | ByClass cls => existsb (String.eqb cls) (classList a)
      | ByTag tag => String.eqb tag (tagName a)
      end
  end.

(** The nodes of the tree rooted at [n] that [sel] selects, [n] included,
    in document order. *)
Fixpoint matching (sel : selector) (n : node) : list path :=
  (if selects sel n then [[]] else []) ++
  match n with
  | Text _ => []
  | Element _ kids =>
      (fix below (i : nat) (l : list node) : list path :=
         match l with
         | [] => []
         | k :: l' => (cons i <$> matching sel k) ++ below (S i) l'
         end) 0%nat kids
  end.

Fixpoint matching_below (sel : selector) (i : nat) (l : list node) : list path :=
  match l with
  | [] => []
  | k :: l' => (cons i <$> matching sel k) ++ matching_below sel (S i) l'
  end.

(** [n.querySelectorAll(sel)]: the descendants of [n] that match. *)
Definition querySelectorAll (sel : selector) (n : node) : list path :=
  matching_below sel 0 (children n).

(** [n.querySelector(sel)]: the first of them, [None] for [null]. *)
Definition querySelector (sel : selector) (n : node) : option path :=
  head (querySelectorAll sel n).

Fixpoint node_at (p : path) (n : node) : option node :=
  match p with
  | [] => Some n
  | i :: p' => children n !! i ≫= node_at p'
  end.

(** Mutating the node at [p] in place. *)
Fixpoint alter_at (f : node -> node) (p : path) (n : node) : node :=
  match p with
  | [] => f n
  | i :: p' =>
      match n with
      | Text _ => n
      | Element a kids => Element a (alter (alter_at f p') i kids)
      end
  end.

(** *** Inline style: a CSS declaration block *)

(** A block lists declarations of longhand properties.  The two shorthands
    the facade assigns stand for four physical longhands each; the logical
    longhands of the same group are declared apart from them. *)
Definition physical (shorthand : string) : list string :=
  [shorthand +:+ "-top"; shorthand +:+ "-right";
   shorthand +:+ "-bottom"; shorthand +:+ "-left"].

Definition logical (shorthand : string) : list string :=
  [shorthand +:+ "-block-start"; shorthand +:+ "-block-end";
   shorthand +:+ "-inline-start"; shorthand +:+ "-inline-end"].

Definition box_shorthands : list string := ["margin"; "padding"].

Definition is_in (names : list string) (prop : string) : bool :=
  existsb (String.eqb prop) names.

Definition longhands (name : string) : list string :=
  if is_in box_shorthands name then physical name else [name].

(** [shorthand] and the longhands an assignment to it writes. *)
Definition covers (shorthand prop : string) : bool :=
  is_in (shorthand :: physical shorthand) prop.

(** [other] is in the logical property group of the physical longhand
    [prop], with the other mapping logic. *)
Definition rival (prop other : string) : bool :=
  existsb (fun shorthand => is_in (physical shorthand) prop &&
                            is_in (logical shorthand) other) box_shorthands.

(** Longhands none of which is in the logical group of another with the other
    mapping logic. *)
Definition unrivalled (props : list string) : bool :=
  forallb (fun p => forallb (fun q => negb (rival p q)) props) props.

Definition declared (prop : string) (decls : list (string * string))
  : option string :=
  snd <$> List.find (fun d => String.eqb d.1 prop) decls.

(** "Set a CSS declaration": a property that is declared is rewritten where
    it stands, unless a declaration of its logical group with the other
    mapping logic follows it: then it is removed and declared anew at the
    end.  A property that is not declared is declared at the end.  (A block
    holds a property once; the removal drops every declaration of it.) *)
Fixpoint set_declaration (prop val : string) (decls : list (string * string))
  : list (string * string) :=
  match decls with
  | [] => [(prop, val)]
  | d :: rest =>
      if String.eqb d.1 prop then
        if existsb (fun d' => rival prop d'.1) rest
        then List.filter (fun d' => negb (String.eqb d'.1 prop)) rest ++ [(prop, val)]
        else (prop, val) :: rest
      else d :: set_declaration prop val rest
  end.

Definition set_each (props : list string) (val : string)
    (decls : list (string * string)) : list (string * string) :=
  foldl (fun ds prop => set_declaration prop val ds) decls props.

(** Assigning to [name]: each longhand it stands for is set, in order. *)
Definition setProperty (name val : string) (decls : list (string * string))
  : list (string * string) :=
  set_each (longhands name) val decls.

(** [prop] is declared with [val] where an assignment would leave it. *)
Fixpoint settled (prop val : string) (decls : list (string * string)) : bool :=
  match decls with
  | [] => false
  | d :: rest =>
      if String.eqb d.1 prop
      then String.eqb d.2 val && negb (existsb (fun d' => rival prop d'.1) rest)
      else settled prop val rest
  end.

(** The value of [name]: for a shorthand, the value its longhands agree on. *)
Definition getPropertyValue (name : string) (decls : list (string * string))
  : option string :=
  match longhands name with
  | [] => None
  | prop :: props =>
      match declared prop decls with
      | None => None
      | Some v =>
          if forallb (fun q => bool_decide (declared q decls = Some v)) props
          then Some v else None
      end
  end.

(** [el.style.prop = 0]: the number is converted to the string ["0"], a
    valid length, which the declaration block keeps as [0px]. *)
Definition set_style_zero (prop : string) (n : node) : node :=
  match n with
  | Text _ => n
  | Element a kids =>
      Element (Attributes (tagName a) (classList a)
                          (setProperty prop "0px" (style a))
                          (otherAttributes a)) kids
  end.

Definition style_of (n : node) : list (string * string) :=
  match n with Text _ => [] | Element a _ => style a end.

(** Every element below (and including) [n] that [sel] selects satisfies [P]. *)
Definition all_selected (sel : selector) (P : node -> Prop) (n : node) : Prop :=
  forall p m, node_at p n = Some m -> selects sel m = true -> P m.

End Dom.


(** ** The event emitter (eventemitter3) *)

Module Emitter.
Section Emitter.
Context {F : Type}.

(** A listener: the event it was added for (a property key), its function,
    the [this] it is called with, and whether it is one-shot. *)
Record listener := Listener {
  event : Js.value;
  fn : F;
  context : Js.value;
  once_only : bool
}.

(** The listeners of an emitter, in subscription order. *)
Definition t := list listener.

Definition keyed (key : Js.value) (l : listener) : bool :=
  Js.strict_equal (event l) key.

Definition listens (ev : string) (l : listener) : bool := keyed (Js.VString ev) l.

Definition listeners (ev : string) (em : t) : list listener :=
  List.filter (listens ev) em.

(** [addListener(emitter, event, fn, context, once)] *)
Definition add (key : Js.value) (f : F) (ctx : Js.value) (once : bool) (em : t) : t :=
  em ++ [Listener key f ctx once].

(** [removeListener(event, fn, context, once)].  Without a function every
    listener of the event goes.  With one, a listener of the event stays if
    its function is another, or if [once] is given and it is not one-shot, or
    if [context] is given and its context is another. *)
Definition remove (same : F -> F -> bool) (key : Js.value) (f : option F)
    (ctx once : Js.value) (em : t) : t :=
  match f with
  | None => List.filter (fun l => negb (keyed key l)) em
  | Some f =>
      List.filter
        (fun l => negb (keyed key l)
                  || negb (same (fn l) f)
                  || (Js.ToBoolean once && negb (once_only l))
                  || (Js.ToBoolean ctx && negb (Js.strict_equal (context l) ctx)))
        em
  end.

End Emitter.
Arguments listener : clear implicits.
Arguments t : clear implicits.
End Emitter.

(** ** The collaborators of the facade *)

(** The HTML fragment parser and serializer behind [innerHTML]. *)
Class Browser := {
  parseHTML : string -> list Dom.node;
  serializeHTML : list Dom.node -> string
}.

(** A class registered with the widget library, as [Quill.import] returns it.
    [sanitize] is the static method the link format runs on a destination. *)
Record format_class := FormatClass { sanitize : string -> string }.

(** A native event the widget reports in the course of a call: the event
    and its arguments, and the document and the DOM as the widget has them
    at that point. *)
Record report (Q : Type) := Report {
  native : string * list Js.value;
  document_then : Q;
  nodes_then : gmap Js.ref Dom.node
}.
Arguments Report {Q}.
Arguments native {Q}.
Arguments document_then {Q}.
Arguments nodes_then {Q}.

(** What a widget call does when no listener interrupts it: the native
    events it reports on the way, the value it returns or the exception it
    throws, and the document and the DOM it ends with. *)
Record outcome (Q : Type) := Outcome {
  reported : list (report Q);
  returned : Js.exn + Js.value;
  document_after : Q;
  nodes_after : gmap Js.ref Dom.node
}.
Arguments Outcome {Q}.
Arguments reported {Q}.
Arguments returned {Q}.
Arguments document_after {Q}.
Arguments nodes_after {Q}.

(** The widget library.  [Q] is a widget's document; the constructor and the
    methods see the library's registry of formats, which all widgets share.
    The constructor throws, or gives up on a container it cannot resolve and
    leaves an object that was not set up ([None]), or sets the widget up. *)
Class QuillLibrary := {
  Q : Type;
  Quill_construct :
    Js.value -> Js.value -> gmap string format_class -> gmap Js.ref Dom.node ->
    Js.exn + option (Q * gmap Js.ref Dom.node);
  Quill_method :
    string -> list Js.value -> gmap string format_class -> Q ->
    gmap Js.ref Dom.node -> outcome Q
}.

(** The host program and the language around the facade: which values are
    functions (they are objects), what a call of a handler does (it returns
    or it throws, which may depend on the handler calls made before; a
    handler does not call back into the facade or the widget), and the
    string a value that is neither a string nor a symbol converts to. *)
Class Host := {
  is_function : Js.value -> bool;
  is_function_object : forall v, is_function v = true -> exists r, v = Js.VObject r;
  call_throws :
    list (Js.value * list Js.value) -> Js.value -> list Js.value -> option Js.exn;
  ToString : Js.value -> string
}.

(** ** The process: DOM, widget registry, widgets, emitters *)

Module Process.
Section Process.
Context `{QuillLibrary} `{Host}.

(** A listener on a widget's native events.  [Reemit em ev] is the closure
    [function () { emitter.emit(ev); }] over the emitter [em]; [Foreign f] is
    a function some other code registered. *)
Inductive callback := Reemit (emitter : Js.ref) (ev : string) | Foreign (f : Js.value).

Definition same_callback (a b : callback) : bool :=
  match a, b with
  | Reemit em ev, Reemit em' ev' => Pos.eqb em em' && String.eqb ev ev'
  | Foreign f, Foreign g => Js.strict_equal f g
  | _, _ => false
  end.

Record quill_object := QuillObject {
  document : Q;
  native_listeners : Emitter.t callback
}.

Record world := World {
  nodes : gmap Js.ref Dom.node;          (* elements the program holds *)
  formats : gmap string format_class;    (* the library's shared registry *)
  quills : gmap Js.ref quill_object;     (* widgets that were set up *)
  husks : gset Js.ref;                   (* widget objects that were not *)
  emitters : gmap Js.ref (Emitter.t Js.value);
  invoked : list (Js.value * list Js.value)  (* handler calls so far, oldest first *)
}.

Definition set_nodes (d : gmap Js.ref Dom.node) (w : world) : world :=
  World d (formats w) (quills w) (husks w) (emitters w) (invoked w).
Definition set_formats (f : gmap string format_class) (w : world) : world :=
  World (nodes w) f (quills w) (husks w) (emitters w) (invoked w).
Definition set_quills (q : gmap Js.ref quill_object) (w : world) : world :=
  World (nodes w) (formats w) q (husks w) (emitters w) (invoked w).
Definition set_husks (h : gset Js.ref) (w : world) : world :=
  World (nodes w) (formats w) (quills w) h (emitters w) (invoked w).
Definition set_emitters (e : gmap Js.ref (Emitter.t Js.value)) (w : world) : world :=
  World (nodes w) (formats w) (quills w) (husks w) e (invoked w).
Definition set_invoked (l : list (Js.value * list Js.value)) (w : world) : world :=
  World (nodes w) (formats w) (quills w) (husks w) (emitters w) l.

(** Computations: a call returns or throws, and leaves a world behind. *)
Inductive result (A : Type) := Ok (a : A) | Throw (e : Js.exn).
Arguments Ok {A}.
Arguments Throw {A}.

Definition M (A : Type) : Type := world -> result A * world.

Definition ret {A} (a : A) : M A := fun w => (Ok a, w).
Definition throw {A} (e : Js.exn) : M A := fun w => (Throw e, w).
Definition bind {A B} (m : M A) (k : A -> M B) : M B :=
  fun w => match m w with
           | (Ok a, w') => k a w'
           | (Throw e, w') => (Throw e, w')
           end.

Local Notation "'let*' x ':=' m 'in' k" := (bind m (fun x => k))
  (at level 10, x name, m at level 100, k at level 200).

Fixpoint for_each {A} (l : list A) (body : A -> M unit) : M unit :=
  match l with
  | [] => ret tt
  | x :: l' => bind (body x) (fun _ => for_each l' body)
  end.

(** The property an event is filed under: [events[event]]. *)
Definition property_key (event : Js.value) : Js.value :=
  match event with
  | Js.VString _ | Js.VSymbol _ => event
  | _ => Js.VString (ToString event)
  end.

(** *** Calling a handler *)

(** [f.apply(context, args)]: the call is made, and returns or throws, if
    [f] is a function; calling anything else is a [TypeError]. *)
Definition invoke (f : Js.value) (args : list Js.value) : M unit :=
  fun w =>
    if is_function f then
      let w' := set_invoked (invoked w ++ [(f, args)]) w in
      match call_throws (invoked w) f args with
      | Some e => (Throw e, w')
      | None => (Ok tt, w')
      end
    else (Throw (Js.TypeError "listener is not a function"), w).

(** The loop of [emit] over the listeners the event had when it began: a
    one-shot listener is removed, then the listener is called; an exception
    ends the loop and goes to the caller of [emit]. *)
Fixpoint emit_loop {F} (drop : F -> M unit) (call : F -> M unit)
    (snapshot : list (Emitter.listener F)) : M unit :=
  match snapshot with
  | [] => ret tt
  | l :: rest =>
      let* _ := if Emitter.once_only l then drop (Emitter.fn l) else ret tt in
      let* _ := call (Emitter.fn l) in
      emit_loop drop call rest
  end.

(** *** The facade's emitters *)

(** [new EventEmitter()] *)
Definition EventEmitter_new : M Js.ref :=
  fun w =>
    let em := fresh (dom (emitters w)) in
    (Ok em, set_emitters (<[em := []]> (emitters w)) w).

Definition EventEmitter_update (em : Js.ref)
    (f : Emitter.t Js.value -> Emitter.t Js.value) : M unit :=
  fun w =>
    match emitters w !! em with
    | None => (Throw (Js.TypeError "not an emitter"), w)
    | Some E => (Ok tt, set_emitters (<[em := f E]> (emitters w)) w)
    end.

(** The function argument of [removeListener]: a falsy one is none. *)
Definition given (f : Js.value) : option Js.value :=
  if Js.ToBoolean f then Some f else None.

(** [em.on(event, fn, context)] and [em.once(event, fn, context)].  The
    emitter refuses a listener that is not a function (eventemitter3 does
    from 3.0.0 on; what earlier versions do with one is not modelled). *)
Definition EventEmitter_add (em : Js.ref) (once : bool) (args : list Js.value)
  : M unit :=
  let event := Js.arg 0 args in
  let fn := Js.arg 1 args in
  let context := Js.arg 2 args in
  if negb (is_function fn)
  then throw (Js.TypeError "The listener must be a function")
  else EventEmitter_update em
         (Emitter.add (property_key event) fn
                      (Js.logical_or context (Js.VObject em)) once).

(** [em.off(event, fn, context, once)] *)
Definition EventEmitter_remove (em : Js.ref) (args : list Js.value) : M unit :=
  let event := Js.arg 0 args in
  let fn := Js.arg 1 args in
  let context := Js.arg 2 args in
  let once := Js.arg 3 args in
  EventEmitter_update em
    (Emitter.remove Js.strict_equal (property_key event) (given fn) context once).

(** [em.emit(ev, args...)] *)
Definition EventEmitter_emit (em : Js.ref) (ev : string) (args : list Js.value)
  : M unit :=
  fun w =>
    match emitters w !! em with
    | None => (Throw (Js.TypeError "not an emitter"), w)
    | Some E =>
        emit_loop
          (fun f => EventEmitter_update em
                      (Emitter.remove Js.strict_equal (Js.VString ev) (given f)
                                      Js.VUndefined (Js.VBool true)))
          (fun f => invoke f args)
          (Emitter.listeners ev E) w
    end.

(** *** The widget's interface *)

Definition Quill_update (q : Js.ref)
    (f : Emitter.t callback -> Emitter.t callback) : M unit :=
  fun w =>
    match quills w !! q with
    | None => (Throw (Js.TypeError "not a widget"), w)
    | Some qo =>
        (Ok tt, set_quills (<[q := QuillObject (document qo) (f (native_listeners qo))]>
                              (quills w)) w)
    end.

(** The function argument of the widget emitter's [removeListener]. *)
Definition given_callback (c : callback) : option callback :=
  match c with
  | Reemit _ _ => Some c
  | Foreign f => if Js.ToBoolean f then Some c else None
  end.

(** Running one native listener.  The re-emitting closure ignores the
    arguments the widget passes and emits on its emitter with none. *)
Definition run_callback (args : list Js.value) (c : callback) : M unit :=
  match c with
  | Reemit em ev => EventEmitter_emit em ev []
  | Foreign f => invoke f args
  end.

(** The widget [q] reports the native event [event.1] with the arguments
    [event.2]: its own emitter runs the loop of [emit] over its listeners. *)
Definition deliver (q : Js.ref) (event : string * list Js.value) : M unit :=
  fun w =>
    match quills w !! q with
    | None => (Ok tt, w)
    | Some qo =>
        emit_loop
          (fun c => Quill_update q
                      (Emitter.remove same_callback (Js.VString event.1)
                                      (given_callback c)
                                      Js.VUndefined (Js.VBool true)))
          (run_callback event.2)
          (Emitter.listeners event.1 (native_listeners qo)) w
    end.

(** The process after that report, whether or not a listener threw. *)
Definition notify (q : Js.ref) (w : world) (event : string * list Js.value) : world :=
  (deliver q event w).2.

(** [new Quill(container, options)] *)
Definition Quill_new (container options : Js.value) : M Js.ref :=
  fun w =>
    let q := fresh (dom (quills w) ∪ husks w) in
    match Quill_construct container options (formats w) (nodes w) with
    | inl e => (Throw e, w)
    | inr None => (Ok q, set_husks ({[q]} ∪ husks w) w)
    | inr (Some (doc, d)) =>
        (Ok q, set_quills (<[q := QuillObject doc []]> (quills w)) (set_nodes d w))
    end.

(** [quill.on(ev, c)]: on an object that was not set up there is no emitter
    to add to. *)
Definition Quill_on (q : Js.ref) (ev : string) (c : callback) : M unit :=
  Quill_update q (Emitter.add (Js.VString ev) c (Js.VObject q) false).

(** The widget [q] has got to the document [doc] and the DOM [d]. *)
Definition settle (q : Js.ref) (doc : Q) (d : gmap Js.ref Dom.node) : M unit :=
  fun w =>
    (Ok tt,
     set_quills (alter (fun qo => QuillObject doc (native_listeners qo)) q (quills w))
                (set_nodes d w)).

(** [quill.method(args...)]: the widget runs against the shared registry and
    reports its native events to the listeners as it goes; an exception of a
    listener goes through the widget to the caller and ends the call where
    it is. *)
Definition Quill_call (q : Js.ref) (method : string) (args : list Js.value)
  : M Js.value :=
  fun w =>
    match quills w !! q with
    | None => (Throw (Js.TypeError "not a widget"), w)
    | Some qo =>
        let o := Quill_method method args (formats w) (document qo) (nodes w) in
        (let* _ := for_each (reported o) (fun r =>
                     let* _ := settle q (document_then r) (nodes_then r) in
                     deliver q (native r)) in
         let* _ := settle q (document_after o) (nodes_after o) in
         match returned o with inl e => throw e | inr v => ret v end) w
    end.

(** [Quill.import(path)]: the registered class, [undefined] when there is
    none.  The class is named by its path: an assignment to one of its
    properties is seen by every later import. *)
Definition Quill_import (path : string) : M (option string) :=
  fun w => (Ok (const path <$> formats w !! path), w).

(** [cls.sanitize = f] *)
Definition assign_sanitize (cls : option string) (f : string -> string) : M unit :=
  fun w =>
    match cls with
    | None => (Throw (Js.TypeError "Cannot set properties of undefined"), w)
    | Some path => (Ok tt, set_formats (<[path := FormatClass f]> (formats w)) w)
    end.

End Process.
Arguments Ok {A}.
Arguments Throw {A}.
End Process.

(** ** The facade: [Editor.js] *)

Module Editor.
Export Process.

Notation "'let*' x ':=' m 'in' k" := (bind m (fun x => k))
  (at level 10, x name, m at level 100, k at level 200).

Section Editor.
Context `{Browser} `{QuillLibrary} `{Host}.

(** The fields the constructor sets on [this]. *)
Record t := Build { targetEl : Js.value; _quill : Js.ref; _emitter : Js.ref }.

(** *** DOM calls *)

(** A reference to an element: one the program holds, or one reached from it. *)
Record handle := Handle { root : Js.ref; below : Dom.path }.

Definition resolve (h : handle) (w : world) : option Dom.node :=
  nodes w !! root h ≫= Dom.node_at (below h).

Definition descend (h : handle) (p : Dom.path) : handle :=
  Handle (root h) (below h ++ p).

(** The receiver of a DOM method call must be an element. *)
Definition element (v : Js.value) : M handle :=
  fun w =>
    match v with
    | Js.VObject r =>
        if bool_decide (is_Some (nodes w !! r)) then (Ok (Handle r []), w)
        else (Throw (Js.TypeError "not an element"), w)
    | _ => (Throw (Js.TypeError "not an element"), w)
    end.

(** [el.querySelector(sel)] *)
Definition querySelector (el : handle) (sel : Dom.selector) : M (option handle) :=
  fun w =>
    match resolve el w with
    | None => (Throw (Js.TypeError "not an element"), w)
    | Some n => (Ok (descend el <$> Dom.querySelector sel n), w)
    end.

(** [el.querySelectorAll(sel)] *)
Definition querySelectorAll (el : handle) (sel : Dom.selector) : M (list handle) :=
  fun w =>
    match resolve el w with
    | None => (Throw (Js.TypeError "not an element"), w)
    | Some n => (Ok (descend el <$> Dom.querySelectorAll sel n), w)
    end.

(** [document.createElement(tag)]: a new element, attached to nothing. *)
Definition createElement (tag : string) : M handle :=
  fun w =>
    let r := fresh (dom (nodes w)) in
    (Ok (Handle r []),
     set_nodes (<[r := Dom.Element (Dom.Attributes tag [] [] []) []]> (nodes w)) w).

(** [el.innerHTML] *)
Definition get_innerHTML (el : handle) : M string :=
  fun w =>
    match resolve el w with
    | None => (Throw (Js.TypeError "not an element"), w)
    | Some n => (Ok (serializeHTML (Dom.children n)), w)
    end.

Definition mutate (el : handle) (f : Dom.node -> Dom.node) : M unit :=
  fun w =>
    (Ok tt, set_nodes (alter (Dom.alter_at f (below el)) (root el) (nodes w)) w).

(** [el.innerHTML = html] *)
Definition set_innerHTML (el : handle) (html : string) : M unit :=
  mutate el (Dom.set_children (parseHTML html)).

(** [el.style.prop = 0] *)
Definition set_style_zero (el : handle) (prop : string) : M unit :=
  mutate el (Dom.set_style_zero prop).

(** *** The constructor *)

Definition constructor (targetEl options : Js.value) : M t :=
  let* quill := Quill_new targetEl options in
  let* emitter := EventEmitter_new in
  let* _ := Quill_on quill "text-change" (Reemit emitter "text-change") in
  let* link := Quill_import "formats/link" in
  let* _ := assign_sanitize link Link.sanitize in
  ret (Build targetEl quill emitter).

(** *** The methods *)

Definition getHTML (this : t) : M string :=
  let* target := element (targetEl this) in
  let* editorContentDiv := querySelector target (Dom.ByClass "ql-editor") in
  match editorContentDiv with
  | None => throw (Js.JsError "Couldn't find editor contents")
  | Some editorContentDiv =>
      let* tmpDiv := createElement "div" in
      let* html := get_innerHTML editorContentDiv in
      let* _ := set_innerHTML tmpDiv html in
      let* paragraphs := querySelectorAll tmpDiv (Dom.ByTag "p") in
      let* _ := for_each paragraphs (fun paragraph =>
                  let* _ := set_style_zero paragraph "margin" in
                  set_style_zero paragraph "padding") in
      get_innerHTML tmpDiv
  end.

Definition getLength (this : t) : M Js.value :=
  Quill_call (_quill this) "getLength" [].

Definition setHTML (this : t) (args : list Js.value) : M unit :=
  let html := Js.arg 0 args in
  let html := Js.logical_or html (Js.VString "") in
  let* _ := Quill_call (_quill this) "pasteHTML" [html] in
  ret tt.

Definition removeFormat (this : t) (args : list Js.value) : M unit :=
  let* _ := Quill_call (_quill this) "removeFormat" [Js.arg 0 args; Js.arg 1 args] in
  ret tt.

(** The test [!index && index !== 0] of [insertHTML] and [insertText]. *)
Definition index_missing (index : Js.value) : bool :=
  negb (Js.ToBoolean index) && negb (Js.strict_equal index Js.zero).

Definition insertHTML (this : t) (args : list Js.value) : M unit :=
  let html := Js.arg 0 args in
  let index := Js.arg 1 args in
  let* index := if index_missing index then getLength this else ret index in
  let* _ := Quill_call (_quill this) "pasteHTML" [index; html] in
  ret tt.

Definition insertText (this : t) (args : list Js.value) : M unit :=
  let text := Js.arg 0 args in
  let name := Js.arg 1 args in
  let index := Js.arg 2 args in
  let* index := if index_missing index then getLength this else ret index in
  let* _ := Quill_call (_quill this) "insertText"
                       [index; text; name; Js.VBool true] in
  ret tt.

Definition deleteText (this : t) (args : list Js.value) : M unit :=
  let* _ := Quill_call (_quill this) "deleteText" [Js.arg 0 args; Js.arg 1 args] in
  ret tt.

Definition getText (this : t) : M Js.value :=
  Quill_call (_quill this) "getText" [].

Definition isBlank (this : t) : M Js.value :=
  Quill_call (_quill this) "editor.isBlank" [].

Definition getSelection (this : t) (args : list Js.value) : M Js.value :=
  Quill_call (_quill this) "getSelection" [Js.arg 0 args].

Definition setSelection (this : t) (args : list Js.value) : M Js.value :=
  Quill_call (_quill this) "setSelection" [Js.arg 0 args; Js.arg 1 args].

(** The widget call of [insertHTML] and of [insertText] when [index] is used
    as it is. *)
Definition pasteHTML_at (this : t) (index html : Js.value) : M unit :=
  let* _ := Quill_call (_quill this) "pasteHTML" [index; html] in
  ret tt.

Definition insertText_at (this : t) (index text name : Js.value) : M unit :=
  let* _ := Quill_call (_quill this) "insertText"
                       [index; text; name; Js.VBool true] in
  ret tt.

(** [on], [off] and [once] declare no parameter: the arguments go to the
    emitter as they come. *)
Definition on (this : t) (args : list Js.value) : M unit :=
  EventEmitter_add (_emitter this) false args.

Definition off (this : t) (args : list Js.value) : M unit :=
  EventEmitter_remove (_emitter this) args.

Definition once (this : t) (args : list Js.value) : M unit :=
  EventEmitter_add (_emitter this) true args.

(** *** The facade in use *)

(** The listener the constructor registers on the widget. *)
Definition forwarding (this : t) : Emitter.listener callback :=
  Emitter.Listener (Js.VString "text-change")
    (Reemit (_emitter this) "text-change") (Js.VObject (_quill this)) false.

(** The widget of [this] has that listener and no other, and the emitter of
    [this] exists. *)
Definition wired (this : t) (w : world) : Prop :=
  (exists qo, quills w !! _quill this = Some qo /\
              native_listeners qo = [forwarding this]) /\
  is_Some (emitters w !! _emitter this).

(** A computation that keeps a facade wired. *)
Definition preserves {A} (this : t) (m : M A) : Prop :=
  forall w, wired this w -> wired this (m w).2.

(** What can happen to a facade: the host calls one of its methods or
    constructs another facade, or the widget reports a native event of its
    own (the user typed). *)
Inductive call :=
| GetHTML
| SetHTML (args : list Js.value)
| RemoveFormat (args : list Js.value)
| InsertHTML (args : list Js.value)
| InsertText (args : list Js.value)
| DeleteText (args : list Js.value)
| GetText
| GetLength
| IsBlank
| GetSelection (args : list Js.value)
| SetSelection (args : list Js.value)
| On (args : list Js.value)
| Off (args : list Js.value)
| Once (args : list Js.value)
| Construct (container options : Js.value)
| Reports (event : string * list Js.value).

(** The world a call leaves, whether it returns or throws. *)
Definition run (this : t) (c : call) (w : world) : world :=
  match c with
  | GetHTML => (getHTML this w).2
  | SetHTML args => (setHTML this args w).2
  | RemoveFormat args => (removeFormat this args w).2
  | InsertHTML args => (insertHTML this args w).2
  | InsertText args => (insertText this args w).2
  | DeleteText args => (deleteText this args w).2
  | GetText => (getText this w).2
  | GetLength => (getLength this w).2
  | IsBlank => (isBlank this w).2
  | GetSelection args => (getSelection this args w).2
  | SetSelection args => (setSelection this args w).2
  | On args => (on this args w).2
  | Off args => (off this args w).2
  | Once args => (once this args w).2
  | Construct container options => (constructor container options w).2
  | Reports event => notify (_quill this) w event
  end.

Inductive reachable (this : t) (w0 : world) : world -> Prop :=
| reachable_start : reachable this w0 w0
| reachable_call w c : reachable this w0 w -> reachable this w0 (run this c w).

End Editor.
End Editor.

(** ** Reference definitions the facts compare the code with *)

Module Reference.

(** Changing the attributes of an element, leaving its children alone. *)
Definition on_attributes (g : Dom.attributes -> Dom.attributes) (n : Dom.node)
  : Dom.node :=
  match n with
  | Dom.Text _ => n
  | Dom.Element a kids => Dom.Element (g a) kids
  end.

(** The tree [n] with [g] applied to the attributes of every element that
    [sel] selects, at every depth. *)
Fixpoint alter_selected (sel : Dom.selector) (g : Dom.attributes -> Dom.attributes)
    (n : Dom.node) : Dom.node :=
  match n with
  | Dom.Text _ => n
  | Dom.Element a kids =>
      Dom.Element (if Dom.selects sel n then g a else a)
                  (alter_selected sel g <$> kids)
  end.

(** The writes of a loop over paths: [f] applied at each of [ps] in turn. *)
Definition alter_each (f : Dom.node -> Dom.node) (n : Dom.node)
    (ps : list Dom.path) : Dom.node :=
  foldl (fun n p => Dom.alter_at f p n) n ps.

(** Zero margin and zero padding in an element's inline style. *)
Definition zero_box (a : Dom.attributes) : Dom.attributes :=
  Dom.Attributes (Dom.tagName a) (Dom.classList a)
    (Dom.setProperty "padding" "0px" (Dom.setProperty "margin" "0px" (Dom.style a)))
    (Dom.otherAttributes a).

(** An element as [createElement] makes it, holding [kids]. *)
Definition detached (tag : string) (kids : list Dom.node) : Dom.node :=
  Dom.Element (Dom.Attributes tag [] [] []) kids.

(** "Every paragraph-level block carries explicit zero margin and padding". *)
Definition normalize_paragraphs (content : list Dom.node) : list Dom.node :=
  alter_selected (Dom.ByTag "p") zero_box <$> content.

(** What [getHTML] is to hand out for the editable element [ed]: its content
    as the browser serializes and parses it again, paragraphs normalized. *)
Definition exported `{Browser} (ed : Dom.node) : list Dom.node :=
  normalize_paragraphs (parseHTML (serializeHTML (Dom.children ed))).

(** The element [sel] names can be located under [target]: some proper
    descendant matches. *)
Definition located (sel : Dom.selector) (target : Dom.node) : Prop :=
  exists p m, p <> [] /\ Dom.node_at p target = Some m /\ Dom.selects sel m = true.

Definition has_zero_box (n : Dom.node) : Prop :=
  Dom.getPropertyValue "margin" (Dom.style_of n) = Some "0px" /\
  Dom.getPropertyValue "padding" (Dom.style_of n) = Some "0px".

End Reference.


(** ** Definitions for the facts about the whole interface *)

Module Observe.
Import Process.


(** [node.textContent]: the text of the tree, in document order. *)
Fixpoint textContent (n : Dom.node) : string :=
  match n with
  | Dom.Text s => s
  | Dom.Element _ kids =>
      (fix all (l : list Dom.node) : string :=
         match l with [] => "" | k :: l' => textContent k +:+ all l' end) kids
  end.

Definition textContents (l : list Dom.node) : string :=
  foldr (fun k rest => textContent k +:+ rest) "" l.

(** The loop of [getHTML] run on the element [tmpDiv] (Editor.js, lines
    59-62): the two style assignments at each paragraph found below it. *)
Definition paragraph_loop (tmpDiv : Dom.node) : Dom.node :=
  Reference.alter_each
    (fun paragraph => Dom.set_style_zero "padding" (Dom.set_style_zero "margin" paragraph))
    tmpDiv (Dom.querySelectorAll (Dom.ByTag "p") tmpDiv).

(** A declaration the normalization of paragraphs does not write. *)
Definition outside_box (prop : string) : bool :=
  negb (Dom.covers "margin" prop) && negb (Dom.covers "padding" prop).

(** Two nodes that may differ in the margin and padding of their inline
    style and in their children, and in nothing else: the other declarations
    are the same, in the same order. *)
Definition same_but_box (n m : Dom.node) : Prop :=
  match n, m with
  | Dom.Text s, Dom.Text s' => s = s'
  | Dom.Element a _, Dom.Element b _ =>
      Dom.tagName a = Dom.tagName b /\
      Dom.classList a = Dom.classList b /\
      Dom.otherAttributes a = Dom.otherAttributes b /\
      List.filter (fun d : string * string => outside_box d.1) (Dom.style a)
        = List.filter (fun d : string * string => outside_box d.1) (Dom.style b) /\
      forall prop, outside_box prop = true ->
        Dom.getPropertyValue prop (Dom.style a) = Dom.getPropertyValue prop (Dom.style b)
  | _, _ => False
  end.

Section Observe.
Context `{QuillLibrary} `{Host}.

(** A computation that keeps a property of the process, however it ends. *)
Definition keeps {A} (P : world -> Prop) (m : M A) : Prop :=
  forall w, P w -> P (m w).2.

(** A computation that keeps a property of the process and returns. *)
Definition returns {A} (P : world -> Prop) (m : M A) : Prop :=
  forall w, P w -> P (m w).2 /\ exists a, (m w).1 = Ok a.

(** An emission with the arguments [args] to listeners whose functions are
    [fs], in subscription order, when [log] are the handler calls made so
    far: the calls it makes, and the exception that ends it if one does.
    The listeners are called in order up to the first that throws; a
    listener that is no function cannot be called. *)
Fixpoint attempts (log : list (Js.value * list Js.value)) (args : list Js.value)
    (fs : list Js.value) : list (Js.value * list Js.value) * option Js.exn :=
  match fs with
  | [] => ([], None)
  | f :: rest =>
      if is_function f then
        match call_throws log f args with
        | Some e => ([(f, args)], Some e)
        | None =>
            let later := attempts (log ++ [(f, args)]) args rest in
            ((f, args) :: later.1, later.2)
        end
      else ([], Some (Js.TypeError "listener is not a function"))
  end.

(** The functions of the listeners of [ev], in subscription order. *)
Definition functions (ev : string) (E : Emitter.t Js.value) : list Js.value :=
  Emitter.fn <$> Emitter.listeners ev E.

(** The listeners that stay when an emission of [ev] has run to its end:
    all but the one-shot listeners of [ev]. *)
Definition persistent (ev : string) (E : Emitter.t Js.value) : Emitter.t Js.value :=
  List.filter (fun l => negb (Emitter.listens ev l && Emitter.once_only l)) E.

(** The listeners of an emitter after an emission of [ev] has dropped the
    one-shot listeners among [called], one removal for each. *)
Definition dropped (ev : string) (called : list (Emitter.listener Js.value))
    (E : Emitter.t Js.value) : Emitter.t Js.value :=
  foldl (fun E l =>
           if Emitter.once_only l
           then Emitter.remove Js.strict_equal (Js.VString ev) (given (Emitter.fn l))
                               Js.VUndefined (Js.VBool true) E
           else E) E called.

(** The facade is wired and the listeners of its emitter are functions. *)
Definition functional (this : Editor.t) (w : world) : Prop :=
  Editor.wired this w /\
  forall E, emitters w !! Editor._emitter this = Some E ->
            Forall (fun l => is_function (Emitter.fn l) = true) E.

(** The facade's listeners are functions, and those of [text-change] are
    among [fs]. *)
Definition listening (this : Editor.t) (fs : list Js.value) (w : world) : Prop :=
  functional this w /\
  exists E, emitters w !! Editor._emitter this = Some E /\
            functions "text-change" E ⊆ fs.

(** What a handler call made by the facade looks like: no argument, and a
    function subscribed to [text-change] on [E]. *)
Definition from_listeners (E : Emitter.t Js.value) (i : Js.value * list Js.value)
  : Prop :=
  i.2 = [] /\ exists l, l ∈ Emitter.listeners "text-change" E /\ Emitter.fn l = i.1.

(** Since [w0], where the emitter of [this] held [E], the facade stayed wired,
    gained no listener of [text-change] and made only such calls. *)
Definition calling (this : Editor.t) (w0 : world) (E : Emitter.t Js.value)
    (w : world) : Prop :=
  Editor.wired this w /\
  exists E' extra,
    emitters w !! Editor._emitter this = Some E' /\
    Emitter.listeners "text-change" E' ⊆ Emitter.listeners "text-change" E /\
    invoked w = invoked w0 ++ extra /\
    Forall (from_listeners E) extra.

(** The exception, if any, of the first listener that throws while the
    widget [q] reports the events of the call [method(args)]. *)
Definition interruption (q : Js.ref) (method : string) (args : list Js.value)
    (w : world) : option Js.exn :=
  match quills w !! q with
  | None => None
  | Some qo =>
      let o := Quill_method method args (formats w) (document qo) (nodes w) in
      match for_each (reported o) (fun r =>
              bind (settle q (document_then r) (nodes_then r))
                   (fun _ => deliver q (native r))) w with
      | (Throw e, _) => Some e
      | (Ok _, _) => None
      end
  end.

End Observe.
End Observe.
(** ** A small process to run the facade in *)

Module Sample.
Import Dom.

Definition quote : string := String (Ascii.ascii_of_nat 34) EmptyString.

(** The value of a box shorthand for the values of its top, right, bottom
    and left sides. *)
Definition box_value (t r b l : string) : string :=
  if String.eqb l r then
    if String.eqb b t then
      if String.eqb r t then t else t +:+ " " +:+ r
    else t +:+ " " +:+ r +:+ " " +:+ b
  else t +:+ " " +:+ r +:+ " " +:+ b +:+ " " +:+ l.

(** The declarations as the block serializes them: a box all four sides of
    which are declared is written as its shorthand, where the first of them
    stands. *)
Fixpoint serialized (block decls : list (string * string)) (written : list string)
  : list (string * string) :=
  match decls with
  | [] => []
  | (prop, val) :: rest =>
      if is_in written prop then serialized block rest written
      else
        match List.find (fun s => is_in (physical s) prop) box_shorthands with
        | Some s =>
            match (fun side => declared side block) <$> physical s with
            | [Some t; Some r; Some b; Some l] =>
                (s, box_value t r b l)
                  :: serialized block rest (physical s ++ written)
            | _ => (prop, val) :: serialized block rest written
            end
        | None => (prop, val) :: serialized block rest written
        end
  end.

Definition render_style (decls : list (string * string)) : string :=
  match decls with
  | [] => ""
  | _ => " style=" +:+ quote +:+
         String.concat " " ((fun d => d.1 +:+ ": " +:+ d.2 +:+ ";")
                              <$> serialized decls decls []) +:+
         quote
  end.

Fixpoint render (n : node) : string :=
  match n with
  | Text s => s
  | Element a kids =>
      "<" +:+ tagName a +:+ render_style (style a) +:+ ">" +:+
      (fix all (l : list node) : string :=
         match l with [] => "" | k :: l' => render k +:+ all l' end) kids +:+
      "</" +:+ tagName a +:+ ">"
  end.

Definition paragraph : node := Element (Attributes "p" [] [] []) [Text "Hello"].

(** A browser that recognizes one fragment and takes the rest for text. *)
Definition parse (s : string) : list node :=
  if String.eqb s "<p>Hello</p>" then [paragraph]
  else if String.eqb s "" then [] else [Text s].

Definition browser : Browser :=
  {| parseHTML := parse;
     serializeHTML := fun l => String.concat "" (render <$> l) |}.

(** A widget that is set up on an element the program holds and on nothing
    else.  It records the calls it receives, answers [1] to [getLength] and
    reports a change at the end of each editing call. *)
Definition edits (method : string) : bool :=
  existsb (String.eqb method) ["pasteHTML"; "insertText"; "deleteText"; "removeFormat"].

Definition is_element (container : Js.value) (d : gmap Js.ref node) : bool :=
  match container with
  | Js.VObject r => bool_decide (is_Some (d !! r))
  | _ => false
  end.

Definition widget : QuillLibrary :=
  {| Q := list (string * list Js.value);
     Quill_construct := fun container _ _ d =>
       inr (if is_element container d then Some ([], d) else None);
     Quill_method := fun method args _ doc d =>
       let doc' := doc ++ [(method, args)] in
       Outcome (if edits method
                then [Report ("text-change", [Js.VString "delta"; Js.VString "api"])
                             doc' d]
                else [])
               (inr (if String.eqb method "getLength" then Js.of_pos 1
                     else Js.VUndefined))
               doc' d |}.

(** The strings of the values that are not strings.  Numbers are written
    out digit by digit, whole numbers and fractions alike (the language
    shortens a fraction to the digits that tell it apart and writes large
    numbers with an exponent). *)
Definition digits (negative : bool) (m : positive) (e : Z) : string :=
  (if negative then "-" else "") +:+
  (if (0 <=? e)%Z then pretty (Z.pos m * 2 ^ e)%Z
   else
     let scaled := (Z.pos m * 5 ^ (- e))%Z in
     let whole := (scaled / 10 ^ (- e))%Z in
     let part := (scaled mod 10 ^ (- e))%Z in
     if (part =? 0)%Z then pretty whole
     else pretty whole +:+ "." +:+
          String.concat "" (replicate (Z.to_nat (- e) - String.length (pretty part)) "0")
          +:+ pretty part).

Definition to_string (v : Js.value) : string :=
  match v with
  | Js.VUndefined => "undefined"
  | Js.VNull => "null"
  | Js.VBool b => if b then "true" else "false"
  | Js.VNumber S754_nan => "NaN"
  | Js.VNumber (S754_zero _) => "0"
  | Js.VNumber (S754_infinity negative) =>
      if negative then "-Infinity" else "Infinity"
  | Js.VNumber (S754_finite negative m e) => digits negative m e
  | Js.VBigInt n => pretty n
  | Js.VString s => s
  | Js.VSymbol _ => "Symbol()"
  | Js.VObject _ => "[object Object]"
  | Js.VDocumentAll => "[object HTMLAllCollection]"
  end.

(** The objects from [5] on are the host's functions. *)
Definition function (v : Js.value) : bool :=
  match v with
  | Js.VObject r => (4 <? r)%positive
  | _ => false
  end.

Definition function_object (v : Js.value)
  : function v = true -> exists r, v = Js.VObject r :=
  match v with
  | Js.VObject r => fun _ => ex_intro _ r eq_refl
  | _ => fun H => False_ind _ (Bool.diff_false_true H)
  end.

(** A host whose handlers return. *)
Definition host : Host :=
  {| is_function := function;
     is_function_object := function_object;
     call_throws := fun _ _ _ => None;
     ToString := to_string |}.

(** The mount element [1], with the editable region the widget renders in. *)
Definition mount : node :=
  Element (Attributes "div" ["ql-container"] [] [("id", "editor")])
    [Element (Attributes "div" ["ql-editor"] [] []) [paragraph]].

(** A mount element the widget has not rendered in. *)
Definition bare_mount : node :=
  Element (Attributes "div" [] [] [("id", "bare")]) [].

Definition world0 : @Process.world widget :=
  Process.World {[ 1%positive := mount; 2%positive := bare_mount ]}
                {[ "formats/link" := FormatClass (fun url => url) ]}
                ∅ ∅ ∅ [].

(** The facade constructed on the mount element, and the process after. *)
Definition editor : Editor.t := Editor.Build (Js.VObject 1) 1 1.

Definition world1 : @Process.world widget :=
  (@Editor.constructor widget (Js.VObject 1) Js.VUndefined world0).2.

(** Its widget, which has received no call. *)
Definition quill1 : @Process.quill_object widget :=
  @Process.QuillObject widget (@nil (string * list Js.value))
    [Editor.forwarding editor].

(** A facade whose mount element holds no editable region. *)
Definition bare_editor : Editor.t := Editor.Build (Js.VObject 2) 1 1.

End Sample.

(** ** The sample facade with a subscriber *)

Module Subscribed.

(** The function [5] listens to [text-change]. *)
Definition h5 : Js.value := Js.VObject 5.
Definition h7 : Js.value := Js.VObject 7.

Definition listeners : Emitter.t Js.value :=
  [Emitter.Listener (Js.VString "text-change") h5 (Js.VObject 1) false].

Definition world : @Process.world Sample.widget :=
  @Editor.run Sample.browser Sample.widget Sample.host Sample.editor
    (Editor.On [Js.VString "text-change"; h5]) Sample.world1.

(** Then [7] does too. *)
Definition world_two : @Process.world Sample.widget :=
  @Editor.run Sample.browser Sample.widget Sample.host Sample.editor
    (Editor.On [Js.VString "text-change"; h7]) world.

End Subscribed.

(** ** A handler that throws *)

Module Faulty.

Definition boom : Js.exn := Js.Raised (Js.VString "boom").

(** The host of the sample, but its function [5] throws whenever called. *)
Definition host : Host :=
  {| is_function := Sample.function;
     is_function_object := Sample.function_object;
     call_throws := fun _ f _ =>
       if Js.strict_equal f Subscribed.h5 then Some boom else None;
     ToString := Sample.to_string |}.

(** The sample facade with the functions [5], then [7], subscribed to
    [text-change]. *)
Definition world : @Process.world Sample.widget :=
  @Editor.run Sample.browser Sample.widget host Sample.editor
    (Editor.On [Js.VString "text-change"; Subscribed.h7])
    (@Editor.run Sample.browser Sample.widget host Sample.editor
       (Editor.On [Js.VString "text-change"; Subscribed.h5]) Sample.world1).

End Faulty.

(** ** A widget that fails *)

Module Broken.

(** Every method throws the name of the method; nothing else happens. *)
Definition widget : QuillLibrary :=
  {| Q := unit;
     Quill_construct := fun _ _ _ d => inr (Some (tt, d));
     Quill_method := fun method args _ doc d =>
       Outcome [] (inl (Js.Raised (Js.VString method))) doc d |}.

Definition world0 : @Process.world widget :=
  Process.World {[ 1%positive := Sample.mount ]}
                {[ "formats/link" := FormatClass (fun url => url) ]}
                ∅ ∅ ∅ [].

Definition editor : Editor.t := Editor.Build (Js.VObject 1) 1 1.

Definition world1 : @Process.world widget :=
  (@Editor.constructor widget (Js.VObject 1) Js.VUndefined world0).2.

Definition quill1 : @Process.quill_object widget :=
  @Process.QuillObject widget tt [Editor.forwarding editor].

End Broken.

(** ** A widget that stores links, and a process that has one already *)

Module Linking.

(** The document is the list of the destinations of its links.
    [format("link", url)] adds a link: the destination goes through the
    [sanitize] of the class registered as [formats/link]. *)
Definition widget : QuillLibrary :=
  {| Q := list string;
     Quill_construct := fun container _ _ d =>
       inr (if Sample.is_element container d then Some ([], d) else None);
     Quill_method := fun method args fm doc d =>
       match method, args, fm !! "formats/link" with
       | "format", [Js.VString "link"; Js.VString url], Some cls =>
           let doc' := doc ++ [sanitize cls url] in
           Outcome [Report ("text-change", [Js.VString "delta"; Js.VString "api"])
                           doc' d]
                   (inr Js.VUndefined) doc' d
       | _, _, _ => Outcome [] (inr Js.VUndefined) doc d
       end |}.

(** Other code of the page has set up the widget [1] on the element [2]; its
    document holds one link. *)
Definition other : @Process.quill_object widget :=
  @Process.QuillObject widget ["http://example.org"] [].

Definition world0 : @Process.world widget :=
  Process.World {[ 1%positive := Sample.mount; 2%positive := Sample.mount ]}
                {[ "formats/link" := FormatClass (fun url => url) ]}
                {[ 1%positive := other ]} ∅ ∅ [].

(** A facade is constructed on the element [1]: its widget is [2]. *)
Definition editor : Editor.t := Editor.Build (Js.VObject 1) 2 1.

Definition world1 : @Process.world widget :=
  (@Editor.constructor widget (Js.VObject 1) Js.VUndefined world0).2.

End Linking.

(** * Facts *)

#[local] Arguments String.eqb : simpl never.

(** ** Strings and the link sanitizer *)

Module JsStringFacts.
Import JsString.

Lemma indexOf_from_unfold s pat i :
  indexOf_from s pat i =
  if String.prefix pat s then i
  else match s with
       | EmptyString => (-1)%Z
       | String _ s' => indexOf_from s' pat (i + 1)
       end.
Proof. by destruct s. Qed.

Lemma indexOf_from_range s pat i :
  (0 <= i)%Z -> indexOf_from s pat i = (-1)%Z \/ (i <= indexOf_from s pat i)%Z.
Proof.
  revert i. induction s as [|a s IH]; intros i Hi;
    rewrite indexOf_from_unfold; destruct (String.prefix pat _).
  - right; lia.
  - by left.
  - right; lia.
  - destruct (IH (i + 1)%Z) as [Hm|Hm]; [lia | by left | right; lia].
Qed.

(** [s.indexOf(pat) === 0] is the test "[s] starts with [pat]". *)
Lemma indexOf_zero s pat :
  (indexOf s pat =? 0)%Z = String.prefix pat s.
Proof.
  unfold indexOf. rewrite indexOf_from_unfold.
  destruct (String.prefix pat s); [done|].
  destruct s as [|a s]; [done|].
  destruct (indexOf_from_range s pat (0 + 1)%Z) as [Hm|Hm]; [lia | by rewrite Hm |].
  apply Z.eqb_neq. lia.
Qed.

Lemma prefix_append p s : String.prefix p (p +:+ s) = true.
Proof.
  induction p as [|a p IH]; simpl; [by destruct s|].
  destruct (Ascii.ascii_dec a a); [done | congruence].
Qed.

Lemma prefix_trans p q s :
  String.prefix p q = true -> String.prefix q s = true -> String.prefix p s = true.
Proof.
  revert q s. induction p as [|a p IH]; intros q s; [by destruct s|].
  destruct q as [|b q]; [done|]. destruct s as [|c s]; [done|]. simpl.
  destruct (Ascii.ascii_dec a b) as [->|]; [|done].
  destruct (Ascii.ascii_dec b c) as [->|]; [|done]. apply IH.
Qed.

End JsStringFacts.

Module LinkFacts.
Import JsString JsStringFacts Link.

Lemma sanitize_unfold url :
  sanitize url = if String.prefix "http" url then url else "https://" +:+ url.
Proof. unfold sanitize. rewrite indexOf_zero. by destruct (String.prefix "http" url). Qed.

Lemma has_http_scheme_prefix url :
  has_http_scheme url = true -> String.prefix "http" url = true.
Proof.
  unfold has_http_scheme. intros [H|H]%orb_true_iff;
    (eapply prefix_trans; [|exact H]); reflexivity.
Qed.

Lemma sanitize_scheme url : has_http_scheme url = true -> sanitize url = url.
Proof. intros H%has_http_scheme_prefix. by rewrite sanitize_unfold, H. Qed.

(** C1 (as amended): the sanitizer returns [url] unchanged exactly when [url]
    begins with the four characters [http], which covers every url that
    begins with [http://] or [https://], and otherwise returns
    [https://] followed by [url]; applied to its own output it changes
    nothing. *)
Theorem sanitize_prepends_once url :
  Link.sanitize url =
    (if String.prefix "http" url then url else "https://" +:+ url) /\
  Link.sanitize url =
    (if Link.has_http_scheme url then url else Link.sanitize url) /\
  Link.sanitize (Link.sanitize url) = Link.sanitize url.
Proof.
  split; [apply sanitize_unfold|]. split.
  - destruct (Link.has_http_scheme url) eqn:E; [by apply sanitize_scheme | done].
  - rewrite (sanitize_unfold url).
    destruct (String.prefix "http" url) eqn:E; rewrite sanitize_unfold.
    + by rewrite E.
    + assert (String.prefix "http" ("https://" +:+ url) = true) as ->; [|done].
      apply (prefix_trans _ "https://"); [done | apply prefix_append].
Qed.

(** A destination that begins with neither scheme prefix and is left as it
    is, not prefixed. *)
Lemma sanitize_keeps_httpbin :
  Link.has_http_scheme "httpbin.org" = false /\
  Link.sanitize "httpbin.org" = "httpbin.org" /\
  String.eqb (Link.sanitize "httpbin.org") ("https://" +:+ "httpbin.org") = false.
Proof. repeat split. Qed.

End LinkFacts.

(** ** The DOM *)

Module DomFacts.
Import Dom Reference.

(** Induction on trees, with the hypothesis for every child. *)
Lemma node_rect' (P : node -> Prop) :
  (forall s, P (Text s)) ->
  (forall a kids, Forall P kids -> P (Element a kids)) ->
  forall n, P n.
Proof.
  intros HT HE. fix IH 1. intros [s|a kids]; [apply HT|].
  apply HE. induction kids as [|k kids IHk]; constructor; [apply IH | exact IHk].
Qed.

Lemma matching_unfold sel n :
  matching sel n =
  (if selects sel n then [[]] else []) ++ matching_below sel 0 (children n).
Proof.
  destruct n as [s|a kids]; [done|]. simpl. f_equal.
  generalize 0%nat. induction kids as [|k kids IH]; intros i; [done|].
  simpl. by rewrite IH.
Qed.

(** *** Writing through a list of paths *)

Lemma alter_each_app f n ps qs :
  alter_each f n (ps ++ qs) = alter_each f (alter_each f n ps) qs.
Proof. apply foldl_app. Qed.

Lemma alter_each_child f a kids i ps :
  alter_each f (Element a kids) (cons i <$> ps) =
  Element a (alter (fun k => alter_each f k ps) i kids).
Proof.
  revert kids. induction ps as [|p ps IH]; intros kids; simpl.
  - by rewrite list_alter_id.
  - unfold alter_each in *. rewrite IH, list_alter_alter_eq. done.
Qed.

Lemma alter_each_below f sel g a :
  forall l pre,
    Forall (fun k => alter_each f k (matching sel k) = alter_selected sel g k) l ->
    alter_each f (Element a (pre ++ l)) (matching_below sel (length pre) l) =
    Element a (pre ++ (alter_selected sel g <$> l)).
Proof.
  induction l as [|k l IH]; intros pre Hl; [done|].
  inversion Hl as [|? ? Hk Hl']; subst. simpl.
  rewrite alter_each_app, alter_each_child.
  replace (length pre) with (length pre + 0)%nat at 1 by lia.
  rewrite alter_app_r. simpl. rewrite Hk.
  specialize (IH (pre ++ [alter_selected sel g k]) Hl').
  rewrite length_app in IH. simpl in IH.
  replace (length pre + 1)%nat with (S (length pre)) in IH by lia.
  by rewrite <- !app_assoc in IH.
Qed.

(** Writing [on_attributes g] through the paths of the selected nodes, one
    after the other, is the recursive traversal. *)
Lemma alter_each_matching sel g n :
  alter_each (on_attributes g) n (matching sel n) = alter_selected sel g n.
Proof.
  induction n as [s|a kids IH] using node_rect'; [done|].
  rewrite matching_unfold, alter_each_app.
  assert (alter_each (on_attributes g) (Element a kids)
            (if selects sel (Element a kids) then [[]] else [])
          = Element (if selects sel (Element a kids) then g a else a) kids) as ->.
  { by destruct (selects sel (Element a kids)). }
  apply (alter_each_below _ sel g _ kids []). exact IH.
Qed.

Lemma alter_each_querySelectorAll sel g a kids :
  alter_each (on_attributes g) (Element a kids) (querySelectorAll sel (Element a kids))
  = Element a (alter_selected sel g <$> kids).
Proof.
  unfold querySelectorAll. simpl.
  apply (alter_each_below _ sel g a kids []).
  apply Forall_forall. intros k _. apply alter_each_matching.
Qed.

(** *** Inline style *)

Lemma find_filter_keep {A} (want keep : A -> bool) (l : list A) :
  (forall x, want x = true -> keep x = true) ->
  List.find want (List.filter keep l) = List.find want l.
Proof.
  intros Hk. induction l as [|x l IH]; [done|]. simpl.
  destruct (keep x) eqn:Ek; simpl.
  - destruct (want x); [done | exact IH].
  - destruct (want x) eqn:Ew; [|exact IH]. apply Hk in Ew. congruence.
Qed.

Lemma find_filter_drop {A} (want keep : A -> bool) (l : list A) :
  (forall x, want x = true -> keep x = false) ->
  List.find want (List.filter keep l) = None.
Proof.
  intros Hk. induction l as [|x l IH]; [done|]. simpl.
  destruct (keep x) eqn:Ek; simpl; [|exact IH].
  destruct (want x) eqn:Ew; [|exact IH]. apply Hk in Ew. congruence.
Qed.

Lemma find_app_None {A} (want : A -> bool) (l k : list A) :
  List.find want l = None -> List.find want (l ++ k) = List.find want k.
Proof.
  induction l as [|x l IH]; [done|]. simpl. destruct (want x); [done | exact IH].
Qed.

Lemma find_app_Some {A} (want : A -> bool) (l k : list A) x :
  List.find want l = Some x -> List.find want (l ++ k) = Some x.
Proof.
  induction l as [|y l IH]; [done|]. simpl. destruct (want y); [done | exact IH].
Qed.

Lemma declared_set_eq prop val decls :
  declared prop (set_declaration prop val decls) = Some val.
Proof.
  unfold declared. induction decls as [|d rest IH]; simpl.
  - by rewrite String.eqb_refl.
  - destruct (String.eqb d.1 prop) eqn:Ed.
    + destruct (existsb _ rest).
      * rewrite find_app_None; [simpl; by rewrite String.eqb_refl|].
        apply find_filter_drop. intros [n v]. simpl. by intros ->.
      * simpl. by rewrite String.eqb_refl.
    + simpl. by rewrite Ed.
Qed.

Lemma declared_set_ne prop other val decls :
  String.eqb prop other = false ->
  declared other (set_declaration prop val decls) = declared other decls.
Proof.
  intros Hne. unfold declared. induction decls as [|d rest IH]; simpl.
  - by rewrite Hne.
  - destruct (String.eqb d.1 prop) eqn:Ed.
    + apply String.eqb_eq in Ed. rewrite Ed, Hne.
      destruct (existsb _ rest); [|simpl; by rewrite Hne].
      destruct (List.find (fun d0 => String.eqb d0.1 other) rest) as [x|] eqn:Ef.
      * erewrite find_app_Some; [done|]. rewrite find_filter_keep; [done|].
        intros [n v]. simpl. intros ->%String.eqb_eq.
        by rewrite String.eqb_sym, Hne.
      * rewrite find_app_None; [simpl; by rewrite Hne|].
        rewrite find_filter_keep; [done|].
        intros [n v]. simpl. intros ->%String.eqb_eq.
        by rewrite String.eqb_sym, Hne.
    + simpl. destruct (String.eqb d.1 other); [done | exact IH].
Qed.

Lemma declared_set_each_out props other val decls :
  is_in props other = false ->
  declared other (set_each props val decls) = declared other decls.
Proof.
  unfold set_each. revert decls. induction props as [|p props IH]; intros decls Hout;
    [done|].
  cbn [is_in existsb] in Hout. apply orb_false_iff in Hout as [Hp Hps].
  cbn [foldl]. rewrite IH by exact Hps. apply declared_set_ne.
  by rewrite String.eqb_sym.
Qed.

Lemma declared_set_each_in props prop val decls :
  is_in props prop = true ->
  declared prop (set_each props val decls) = Some val.
Proof.
  unfold set_each. revert decls. induction props as [|p props IH]; intros decls Hin;
    [done|].
  cbn [foldl]. destruct (is_in props prop) eqn:Hps; [by apply IH|].
  fold (set_each props val (set_declaration p val decls)).
  rewrite declared_set_each_out by done.
  cbn [is_in existsb] in Hin. fold (is_in props prop) in Hin. rewrite Hps in Hin.
  apply orb_true_iff in Hin as [->%String.eqb_eq|?]; [|done].
  apply declared_set_eq.
Qed.

Lemma physical_elem shorthand prop :
  is_in (physical shorthand) prop = true ->
  prop = shorthand +:+ "-top" \/ prop = shorthand +:+ "-right" \/
  prop = shorthand +:+ "-bottom" \/ prop = shorthand +:+ "-left".
Proof.
  cbn [is_in physical existsb]. rewrite orb_false_r, !orb_true_iff, !String.eqb_eq.
  tauto.
Qed.

(** Reading a box shorthand: the value its four longhands have. *)
Lemma getPropertyValue_physical shorthand val decls :
  is_in box_shorthands shorthand = true ->
  (forall prop, is_in (physical shorthand) prop = true ->
                declared prop decls = Some val) ->
  getPropertyValue shorthand decls = Some val.
Proof.
  intros Hs Hall. unfold getPropertyValue, longhands. rewrite Hs. cbn [physical].
  rewrite (Hall (shorthand +:+ "-top")).
  2:{ cbn [is_in physical existsb]. by rewrite String.eqb_refl. }
  cbn [forallb]. rewrite !bool_decide_eq_true_2; [done| | |]; apply Hall.
  all: cbn [is_in physical existsb]; rewrite String.eqb_refl;
    by rewrite ?orb_true_r.
Qed.

Lemma zero_box_has_zero_box a kids : has_zero_box (Element (zero_box a) kids).
Proof.
  split; cbn [style_of zero_box style]; unfold setProperty.
  all: change (longhands "padding") with (physical "padding").
  all: change (longhands "margin") with (physical "margin").
  - apply getPropertyValue_physical; [done|]. intros prop Hp.
    rewrite declared_set_each_out; [by apply declared_set_each_in|].
    by destruct (physical_elem _ _ Hp) as [->|[->|[->| ->]]].
  - apply getPropertyValue_physical; [done|]. intros prop Hp.
    by apply declared_set_each_in.
Qed.

(** The two assignments of the loop body are [zero_box]. *)
Lemma set_style_zero_twice n :
  set_style_zero "padding" (set_style_zero "margin" n) = on_attributes zero_box n.
Proof. by destruct n. Qed.

(** *** Every selected element of the traversal's result *)

Lemma selects_attributes sel a kids kids' :
  selects sel (Element a kids) = selects sel (Element a kids').
Proof. done. Qed.

Lemma all_selected_alter_selected sel g (P : node -> Prop) n :
  (forall a kids, P (Element (g a) kids)) ->
  all_selected sel P (alter_selected sel g n).
Proof.
  intros HP p. revert n. induction p as [|i p IH]; intros n m Hat Hm.
  - injection Hat as <-. destruct n as [s|a kids]; [done|].
    cbn [alter_selected] in *.
    destruct (selects sel (Element a kids)) eqn:E; [apply HP|].
    rewrite (selects_attributes sel a _ kids) in Hm. congruence.
  - destruct n as [s|a kids]; [done|]. cbn [alter_selected node_at children] in Hat.
    rewrite list_lookup_fmap in Hat.
    destruct (kids !! i) as [k|] eqn:Ek; [|done].
    by apply (IH k).
Qed.

(** *** What the selectors find *)

Lemma matching_below_elem sel l i p :
  p ∈ matching_below sel i l <->
  exists j p' k, p = (i + j)%nat :: p' /\ l !! j = Some k /\ p' ∈ matching sel k.
Proof.
  revert i. induction l as [|k l IH]; intros i; simpl.
  - split; [by intros ?%elem_of_nil | by intros (j & p' & k & _ & ? & _)].
  - rewrite elem_of_app, list_elem_of_fmap, IH. split.
    + intros [(p' & -> & Hp')|(j & p' & k' & -> & Hj & Hp')].
      * exists 0%nat, p', k. by rewrite Nat.add_0_r.
      * exists (S j), p', k'. split; [f_equal; lia | done].
    + intros ([|j] & p' & k' & -> & Hj & Hp').
      * left. simpl in Hj. injection Hj as ->. exists p'. by rewrite Nat.add_0_r.
      * right. exists j, p', k'. split; [f_equal; lia | done].
Qed.

Lemma matching_elem sel n p :
  p ∈ matching sel n <-> exists m, node_at p n = Some m /\ selects sel m = true.
Proof.
  revert p. induction n as [s|a kids IH] using node_rect'; intros p.
  - split; [by intros ?%elem_of_nil|].
    intros (m & Hat & Hm). destruct p as [|i p]; simpl in Hat; [|done].
    by injection Hat as <-.
  - rewrite matching_unfold, elem_of_app, matching_below_elem. split.
    + intros [Hself|(j & p' & k & -> & Hj & Hp')].
      * destruct (selects sel (Element a kids)) eqn:E; [|by apply elem_of_nil in Hself].
        apply list_elem_of_singleton in Hself as ->. by exists (Element a kids).
      * rewrite Forall_forall in IH.
        apply (IH k) in Hp' as (m & Hat & Hm); [|by eapply list_elem_of_lookup_2].
        exists m. split; [|done]. simpl in Hj |- *. by rewrite Hj.
    + intros (m & Hat & Hm). destruct p as [|i p].
      * left. injection Hat as <-. rewrite Hm. by apply list_elem_of_singleton.
      * right. cbn [node_at children] in Hat.
        destruct (kids !! i) as [k|] eqn:Ek; [|done]. simpl in Hat.
        exists i, p, k. split; [done|]. split; [done|].
        rewrite Forall_forall in IH. apply IH; [by eapply list_elem_of_lookup_2|].
        by exists m.
Qed.

(** [querySelectorAll] finds exactly the selected proper descendants. *)
Lemma querySelectorAll_elem sel n p :
  p ∈ querySelectorAll sel n <->
  p <> [] /\ exists m, node_at p n = Some m /\ selects sel m = true.
Proof.
  unfold querySelectorAll. rewrite matching_below_elem. split.
  - intros (j & p' & k & -> & Hj & (m & Hat & Hm)%matching_elem).
    split; [done|]. exists m. split; [|done]. simpl. by rewrite Hj.
  - intros [Hne (m & Hat & Hm)]. destruct p as [|i p]; [done|].
    simpl in Hat. destruct (children n !! i) as [k|] eqn:Ek; [|done].
    exists i, p, k. split; [done|]. split; [done|].
    apply matching_elem. by exists m.
Qed.

(** [querySelector] answers [null] exactly when no descendant matches. *)
Lemma querySelector_None sel n :
  querySelector sel n = None <->
  forall p m, p <> [] -> node_at p n = Some m -> selects sel m = false.
Proof.
  unfold querySelector. rewrite head_None. split.
  - intros Hnil p m Hne Hat. destruct (selects sel m) eqn:Hm; [|done].
    assert (p ∈ querySelectorAll sel n) as Hin.
    { apply querySelectorAll_elem. eauto. }
    rewrite Hnil in Hin. by apply elem_of_nil in Hin.
  - intros Hno. destruct (querySelectorAll sel n) as [|p ps] eqn:E; [done|].
    assert (p ∈ querySelectorAll sel n) as Hin by (rewrite E; left).
    apply querySelectorAll_elem in Hin as [Hne (m & Hat & Hm)].
    rewrite (Hno p m Hne Hat) in Hm. done.
Qed.

Lemma querySelector_Some sel n p :
  querySelector sel n = Some p ->
  exists m, node_at p n = Some m /\ selects sel m = true.
Proof.
  unfold querySelector. intros Hh.
  assert (p ∈ querySelectorAll sel n) as Hin.
  { destruct (querySelectorAll sel n) as [|q qs]; [done|].
    injection Hh as ->. left. }
  by apply querySelectorAll_elem in Hin as [_ ?].
Qed.

(** *** Composing writes *)

Lemma alter_at_ext f g p n :
  (forall x, f x = g x) -> alter_at f p n = alter_at g p n.
Proof.
  intros Hfg. revert n. induction p as [|i p IH]; intros n; simpl; [done|].
  destruct n as [s|a kids]; [done|]. f_equal. apply list_alter_ext; [|done].
  intros x _. apply IH.
Qed.

Lemma alter_at_compose f g p n :
  alter_at f p (alter_at g p n) = alter_at (f ∘ g) p n.
Proof.
  revert n. induction p as [|i p IH]; intros n; simpl; [done|].
  destruct n as [s|a kids]; [done|]. f_equal.
  rewrite list_alter_alter_eq. apply list_alter_ext; [|done].
  intros x _. apply IH.
Qed.

Lemma alter_each_ext f g n ps :
  (forall x, f x = g x) -> alter_each f n ps = alter_each g n ps.
Proof.
  intros Hfg. revert n. induction ps as [|p ps IH]; intros n; [done|].
  simpl. rewrite IH. f_equal. by apply alter_at_ext.
Qed.

(** *** Assigning twice *)

Lemma settled_fixed prop val decls :
  settled prop val decls = true -> set_declaration prop val decls = decls.
Proof.
  induction decls as [|[n v] rest IH]; [done|]. cbn [settled set_declaration fst snd].
  destruct (String.eqb n prop) eqn:En.
  - intros [Hv Hr]%andb_true_iff. apply negb_true_iff in Hr. rewrite Hr.
    apply String.eqb_eq in En, Hv. by subst.
  - intros Hs. by rewrite IH.
Qed.

Lemma settled_appended prop val rest :
  settled prop val
    (List.filter (fun d : string * string => negb (String.eqb d.1 prop)) rest ++ [(prop, val)]) = true.
Proof.
  induction rest as [|[n v] rest IH]; cbn [List.filter app settled fst snd].
  - by rewrite !String.eqb_refl.
  - destruct (String.eqb n prop) eqn:En; cbn [negb]; [exact IH|].
    cbn [app settled fst]. by rewrite En.
Qed.

Lemma settled_set prop val decls :
  settled prop val (set_declaration prop val decls) = true.
Proof.
  induction decls as [|[n v] rest IH]; cbn [set_declaration settled fst snd].
  - by rewrite !String.eqb_refl.
  - destruct (String.eqb n prop) eqn:En.
    + destruct (existsb _ rest) eqn:Er; [apply settled_appended|].
      cbn [settled fst snd]. by rewrite !String.eqb_refl, Er.
    + cbn [settled fst]. by rewrite En.
Qed.

Lemma no_rival_moved prop other val rest :
  rival prop other = false ->
  existsb (fun d : string * string => rival prop d.1) rest = false ->
  existsb (fun d : string * string => rival prop d.1)
    (List.filter (fun d : string * string => negb (String.eqb d.1 other)) rest ++ [(other, val)]) = false.
Proof.
  intros Ho. induction rest as [|[n v] rest IH]; cbn [List.filter app existsb fst].
  - intros _. by rewrite Ho.
  - intros [Hn Hr]%orb_false_iff. destruct (String.eqb n other); cbn [negb]; [by apply IH|].
    cbn [app existsb fst]. by rewrite Hn, IH.
Qed.

Lemma no_rival_set prop other val decls :
  rival prop other = false ->
  existsb (fun d : string * string => rival prop d.1) decls = false ->
  existsb (fun d : string * string => rival prop d.1) (set_declaration other val decls) = false.
Proof.
  intros Ho. induction decls as [|[n v] rest IH]; cbn [set_declaration existsb fst].
  - intros _. by rewrite Ho.
  - intros [Hn Hr]%orb_false_iff. destruct (String.eqb n other) eqn:En.
    + destruct (existsb (fun d' => rival other d'.1) rest);
        [by apply no_rival_moved|].
      cbn [existsb fst]. by rewrite Ho, Hr.
    + cbn [existsb fst]. by rewrite Hn, IH.
Qed.

Lemma settled_moved prop other val w rest :
  String.eqb other prop = false ->
  rival prop other = false ->
  settled prop val rest = true ->
  settled prop val
    (List.filter (fun d : string * string => negb (String.eqb d.1 other)) rest ++ [(other, w)]) = true.
Proof.
  intros Hne Ho. induction rest as [|[n v] rest IH]; [done|].
  cbn [settled List.filter fst snd]. destruct (String.eqb n prop) eqn:En.
  - intros [Hv Hr]%andb_true_iff. apply negb_true_iff in Hr.
    apply String.eqb_eq in En. subst n. rewrite String.eqb_sym, Hne. cbn [negb app settled fst snd].
    rewrite String.eqb_refl, Hv. by rewrite no_rival_moved.
  - intros Hs. destruct (String.eqb n other); cbn [negb]; [by apply IH|].
    cbn [app settled fst]. rewrite En. by apply IH.
Qed.

Lemma settled_other prop other val w decls :
  String.eqb other prop = false ->
  rival prop other = false ->
  settled prop val decls = true ->
  settled prop val (set_declaration other w decls) = true.
Proof.
  intros Hne Ho. induction decls as [|[n v] rest IH]; [done|].
  cbn [settled set_declaration fst snd]. destruct (String.eqb n other) eqn:En.
  - apply String.eqb_eq in En. subst n. rewrite Hne. intros Hs.
    destruct (existsb _ rest); [by apply settled_moved|].
    cbn [settled fst]. by rewrite Hne.
  - destruct (String.eqb n prop) eqn:Ep.
    + intros [Hv Hr]%andb_true_iff. apply negb_true_iff in Hr.
      cbn [settled fst snd]. rewrite Ep, Hv. by rewrite no_rival_set.
    + intros Hs. cbn [settled fst]. rewrite Ep. by apply IH.
Qed.

Lemma settled_set_each props val :
  forall done decls,
    unrivalled (done ++ props) = true ->
    (forall q, is_in done q = true -> settled q val decls = true) ->
    forall q, is_in (done ++ props) q = true ->
              settled q val (set_each props val decls) = true.
Proof.
  induction props as [|p props IH]; intros done decls Hu Hd q Hq.
  - rewrite app_nil_r in Hq. by apply Hd.
  - cbn [set_each foldl]. fold (set_each props val (set_declaration p val decls)).
    apply (IH (done ++ [p])); rewrite <- ?app_assoc; try done.
    intros q' Hq'. unfold is_in in Hq'. rewrite existsb_app in Hq'.
    destruct (String.eqb p q') eqn:Epq.
    + apply String.eqb_eq in Epq. subst q'. apply settled_set.
    + apply settled_other; [done| |].
      * unfold unrivalled in Hu. rewrite forallb_forall in Hu.
        apply orb_true_iff in Hq' as [Hq'|Hq'].
        -- apply existsb_exists in Hq' as (x & Hx & ->%String.eqb_eq).
           assert (In x (done ++ p :: props)) as Hin by (apply in_or_app; by left).
           specialize (Hu x Hin). rewrite forallb_forall in Hu.
           apply negb_true_iff, Hu. apply in_or_app. right. by left.
        -- cbn [existsb] in Hq'. rewrite String.eqb_sym, Epq in Hq'. done.
      * apply orb_true_iff in Hq' as [Hq'|Hq']; [by apply Hd|].
        cbn [existsb] in Hq'. rewrite String.eqb_sym, Epq in Hq'. done.
Qed.

Lemma set_each_fixed props val decls :
  (forall q, is_in props q = true -> settled q val decls = true) ->
  set_each props val decls = decls.
Proof.
  unfold set_each. induction props as [|p props IH]; intros Hs; [done|].
  cbn [foldl]. rewrite settled_fixed.
  - apply IH. intros q Hq. apply Hs. cbn [is_in existsb]. fold (is_in props q).
    by rewrite Hq, orb_true_r.
  - apply Hs. cbn [is_in existsb]. by rewrite String.eqb_refl.
Qed.

Lemma set_each_app props props' val decls :
  set_each (props ++ props') val decls = set_each props' val (set_each props val decls).
Proof. apply foldl_app. Qed.

Lemma zero_box_idempotent a : zero_box (zero_box a) = zero_box a.
Proof.
  unfold zero_box. cbn [tagName classList style otherAttributes]. f_equal.
  unfold setProperty.
  change (longhands "padding") with (physical "padding").
  change (longhands "margin") with (physical "margin").
  set (X := set_each (physical "padding") "0px"
              (set_each (physical "margin") "0px" (style a))).
  assert (forall q, is_in (physical "margin" ++ physical "padding") q = true ->
                    settled q "0px" X = true) as HX.
  { unfold X. rewrite <- set_each_app.
    apply (settled_set_each _ _ [] (style a)); [reflexivity | done]. }
  rewrite (set_each_fixed (physical "margin") "0px" X).
  - apply set_each_fixed. intros q Hq. apply HX.
    unfold is_in. rewrite existsb_app. fold (is_in (physical "padding") q).
    by rewrite Hq, orb_true_r.
  - intros q Hq. apply HX.
    unfold is_in. rewrite existsb_app. fold (is_in (physical "margin") q).
    by rewrite Hq.
Qed.

End DomFacts.

(** ** The facade *)

Module EditorFacts.
Import Dom Reference DomFacts Editor Observe.
Section EditorFacts.
Context `{Browser} `{QuillLibrary} `{Host}.

Lemma bind_ok {A B} (m : M A) (k : A -> M B) w a w' :
  m w = (Ok a, w') -> bind m k w = k a w'.
Proof. unfold bind. by intros ->. Qed.

Lemma bind_throw {A B} (m : M A) (k : A -> M B) w e w' :
  m w = (Throw e, w') -> bind m k w = (Throw e, w').
Proof. unfold bind. by intros ->. Qed.

Lemma set_nodes_id w : set_nodes (nodes w) w = w.
Proof. by destruct w. Qed.

Lemma set_nodes_twice d1 d2 w : set_nodes d2 (set_nodes d1 w) = set_nodes d2 w.
Proof. done. Qed.

Lemma element_ok r n w :
  nodes w !! r = Some n -> element (Js.VObject r) w = (Ok (Handle r []), w).
Proof. intros Hr. unfold element. by rewrite bool_decide_eq_true_2 by eauto. Qed.

Lemma querySelector_run el sel n w :
  resolve el w = Some n ->
  querySelector el sel w = (Ok (descend el <$> Dom.querySelector sel n), w).
Proof. unfold querySelector. by intros ->. Qed.

Lemma querySelectorAll_run el sel n w :
  resolve el w = Some n ->
  querySelectorAll el sel w = (Ok (descend el <$> Dom.querySelectorAll sel n), w).
Proof. unfold querySelectorAll. by intros ->. Qed.

Lemma get_innerHTML_run el n w :
  resolve el w = Some n ->
  get_innerHTML el w = (Ok (serializeHTML (children n)), w).
Proof. unfold get_innerHTML. by intros ->. Qed.

(** The loop over the paragraphs of a held element [r]. *)
Lemma for_each_mutate r f1 f2 ps w :
  for_each (Handle r <$> ps)
    (fun paragraph => let* _ := mutate paragraph f1 in mutate paragraph f2) w
  = (Ok tt, set_nodes (alter (fun n => alter_each (f2 ∘ f1) n ps) r (nodes w)) w).
Proof.
  revert w. induction ps as [|p ps IH]; intros w.
  - simpl. unfold ret. f_equal. rewrite <- (set_nodes_id w) at 1. f_equal.
    symmetry. apply map_eq. intros i. rewrite lookup_alter.
    case_decide; [|done]. subst i. by destruct (nodes w !! r).
  - cbn [fmap list_fmap for_each]. unfold bind at 1. unfold bind at 1.
    unfold mutate at 1 2. cbn [root below]. rewrite IH.
    destruct w as [d fm qs hs es inv]. unfold set_nodes. cbn. do 2 f_equal.
    apply map_eq. intros i. destruct (decide (r = i)) as [<-|Hne].
    + rewrite !lookup_alter_eq. destruct (d !! r) as [n|]; [|done].
      simpl. by rewrite alter_at_compose.
    + by rewrite !lookup_alter_ne.
Qed.
Lemma getHTML_found this w r target p ed :
  targetEl this = Js.VObject r ->
  nodes w !! r = Some target ->
  Dom.querySelector (ByClass "ql-editor") target = Some p ->
  node_at p target = Some ed ->
  getHTML this w =
  (Ok (serializeHTML (exported ed)),
   set_nodes (<[fresh (dom (nodes w)) := detached "div" (exported ed)]> (nodes w)) w).
Proof.
  intros Ht Hr Hq Hed. unfold getHTML. rewrite Ht.
  erewrite bind_ok by (eapply element_ok; eassumption).
  erewrite bind_ok by (apply querySelector_run; unfold resolve; simpl; by rewrite Hr).
  rewrite Hq. cbn [fmap option_fmap option_map descend root below app].
  erewrite bind_ok by reflexivity.
  assert (fresh (dom (nodes w)) <> r) as Hfresh.
  { intros E. apply (is_fresh (dom (nodes w))). rewrite E. apply elem_of_dom. eauto. }
  erewrite bind_ok.
  2:{ apply get_innerHTML_run. unfold resolve. cbn [root below nodes set_nodes].
      rewrite lookup_insert_ne by done. simpl. rewrite Hr. exact Hed. }
  erewrite bind_ok by reflexivity.
  set (tmp := fresh (dom (nodes w))) in *.
  set (F0 := parseHTML (serializeHTML (children ed))).
  cbn [root below nodes set_nodes alter_at]. rewrite alter_insert_eq.
  cbn [set_children]. rewrite set_nodes_twice.
  erewrite bind_ok.
  2:{ apply querySelectorAll_run. unfold resolve. cbn [root below nodes set_nodes].
      rewrite lookup_insert_eq. reflexivity. }
  replace (descend (Handle tmp [])) with (Handle tmp) by reflexivity.
  unfold set_style_zero. erewrite bind_ok by apply for_each_mutate.
  cbn [nodes set_nodes]. rewrite alter_insert_eq, set_nodes_twice.
  erewrite get_innerHTML_run.
  2:{ unfold resolve. cbn [root below nodes set_nodes].
      rewrite lookup_insert_eq. reflexivity. }
  erewrite alter_each_ext by apply set_style_zero_twice.
  rewrite alter_each_querySelectorAll. reflexivity.
Qed.

Lemma getHTML_missing this w r target :
  targetEl this = Js.VObject r ->
  nodes w !! r = Some target ->
  Dom.querySelector (ByClass "ql-editor") target = None ->
  getHTML this w = (Throw (Js.JsError "Couldn't find editor contents"), w).
Proof.
  intros Ht Hr Hq. unfold getHTML. rewrite Ht.
  erewrite bind_ok by (eapply element_ok; eassumption).
  erewrite bind_ok by (apply querySelector_run; unfold resolve; simpl; by rewrite Hr).
  by rewrite Hq.
Qed.

Lemma getHTML_not_element this w :
  (forall r, targetEl this = Js.VObject r -> nodes w !! r = None) ->
  getHTML this w = (Throw (Js.TypeError "not an element"), w).
Proof.
  intros Hno. unfold getHTML. erewrite bind_throw; [done|].
  unfold element. destruct (targetEl this) as [| | | | | | |r|]; try done.
  rewrite bool_decide_eq_false_2; [done|].
  rewrite (Hno r eq_refl). by intros [? ?].
Qed.

Lemma located_querySelector sel target :
  located sel target <-> is_Some (Dom.querySelector sel target).
Proof.
  split.
  - intros (p & m & Hne & Hat & Hm).
    destruct (Dom.querySelector sel target) eqn:E; [eauto|].
    rewrite querySelector_None in E. rewrite (E p m Hne Hat) in Hm. done.
  - intros [p Hq]. unfold Dom.querySelector in Hq.
    assert (p ∈ Dom.querySelectorAll sel target) as Hin.
    { destruct (Dom.querySelectorAll sel target) as [|q qs]; [done|].
      injection Hq as ->. left. }
    apply querySelectorAll_elem in Hin as [Hne (m & Hat & Hm)].
    by exists p, m.
Qed.

(** C4: with an element for mount point, [getHTML] throws, and then the
    error ["Couldn't find editor contents"], exactly when no descendant of the
    mount element has the class [ql-editor]; it returns exactly when one has. *)
Theorem getHTML_lookup_error this w r target :
  targetEl this = Js.VObject r ->
  nodes w !! r = Some target ->
  ((getHTML this w).1 = Throw (Js.JsError "Couldn't find editor contents")
     <-> ~ located (ByClass "ql-editor") target) /\
  ((exists e, (getHTML this w).1 = Throw e)
     <-> ~ located (ByClass "ql-editor") target) /\
  ((exists html, (getHTML this w).1 = Ok html)
     <-> located (ByClass "ql-editor") target).
Proof.
  intros Ht Hr. rewrite located_querySelector.
  destruct (Dom.querySelector (ByClass "ql-editor") target) as [p|] eqn:Hq.
  - destruct (querySelector_Some _ _ _ Hq) as (ed & Hed & _).
    rewrite (getHTML_found this w r target p ed Ht Hr Hq Hed). simpl.
    split; [|split].
    + split; [done|]. intros Hno. destruct Hno. eauto.
    + split; [by intros [e ?]|]. intros Hno. destruct Hno. eauto.
    + split; eauto.
  - rewrite (getHTML_missing this w r target Ht Hr Hq). simpl.
    split; [|split].
    + split; [|done]. by intros _ [? ?].
    + split; [|by eauto]. by intros _ [? ?].
    + split; [by intros [? ?] | by intros [? ?]].
Qed.

(** C5: when the editable element is present, [getHTML] returns the
    serialization of its content, parsed into a detached element, in which
    every [p] element at every depth has [margin: 0px] and [padding: 0px] in
    its inline style and nothing else differs. *)
Theorem getHTML_zeroes_paragraphs this w r target p :
  targetEl this = Js.VObject r ->
  nodes w !! r = Some target ->
  Dom.querySelector (ByClass "ql-editor") target = Some p ->
  exists ed,
    node_at p target = Some ed /\
    (getHTML this w).1 = Ok (serializeHTML (exported ed)) /\
    exported ed =
      alter_selected (ByTag "p") zero_box <$> parseHTML (serializeHTML (children ed)) /\
    Forall (all_selected (ByTag "p") has_zero_box) (exported ed).
Proof.
  intros Ht Hr Hq. destruct (querySelector_Some _ _ _ Hq) as (ed & Hed & _).
  exists ed. split; [done|]. split; [|split; [done|]].
  - by rewrite (getHTML_found this w r target p ed Ht Hr Hq Hed).
  - unfold exported, normalize_paragraphs. apply Forall_fmap, Forall_forall.
    intros n _. apply all_selected_alter_selected, zero_box_has_zero_box.
Qed.

(** The process after [getHTML]: as before, or with one more element, the
    one the call created. *)
Lemma getHTML_world this w :
  (getHTML this w).2 = w \/
  exists ed, (getHTML this w).2 =
             set_nodes (<[fresh (dom (nodes w)) := detached "div" (exported ed)]>
                          (nodes w)) w.
Proof.
  destruct (targetEl this) as [| | | | | | |r|] eqn:Ht;
    try (rewrite getHTML_not_element by (intros ?; congruence); by left).
  destruct (nodes w !! r) as [target|] eqn:Hr.
  2:{ rewrite getHTML_not_element
        by (intros r0 E; rewrite Ht in E; by injection E as <-).
      by left. }
  destruct (Dom.querySelector (ByClass "ql-editor") target) as [p|] eqn:Hq.
  2:{ rewrite (getHTML_missing this w r target Ht Hr Hq). by left. }
  destruct (querySelector_Some _ _ _ Hq) as (ed & Hed & _).
  rewrite (getHTML_found this w r target p ed Ht Hr Hq Hed). right. by exists ed.
Qed.

(** C10: [getHTML] only observes.  Whatever it returns or throws, the
    registry, the widgets, the emitters and the handler calls are as before,
    every element the program held is as before (the writes go to an element
    created by the call), and a second call gives the same result. *)
Theorem getHTML_observes_only this w :
  formats (getHTML this w).2 = formats w /\
  quills (getHTML this w).2 = quills w /\
  emitters (getHTML this w).2 = emitters w /\
  invoked (getHTML this w).2 = invoked w /\
  (forall r n, nodes w !! r = Some n -> nodes (getHTML this w).2 !! r = Some n) /\
  (getHTML this (getHTML this w).2).1 = (getHTML this w).1.
Proof.
  destruct (targetEl this) as [| | | | | | |r|] eqn:Ht;
    try (rewrite !getHTML_not_element by (intros ?; congruence); done).
  destruct (nodes w !! r) as [target|] eqn:Hr.
  2:{ rewrite !getHTML_not_element
        by (intros r0 E; rewrite Ht in E; by injection E as <-).
      done. }
  destruct (Dom.querySelector (ByClass "ql-editor") target) as [p|] eqn:Hq.
  2:{ rewrite !(getHTML_missing this w r target Ht Hr Hq). simpl.
      by rewrite ?(getHTML_missing this w r target Ht Hr Hq). }
  destruct (querySelector_Some _ _ _ Hq) as (ed & Hed & _).
  rewrite (getHTML_found this w r target p ed Ht Hr Hq Hed). cbn [fst snd].
  assert (forall r' n, nodes w !! r' = Some n ->
            (<[fresh (dom (nodes w)) := detached "div" (exported ed)]> (nodes w)) !! r'
            = Some n) as Hframe.
  { intros r' n Hn. rewrite lookup_insert_ne; [done|].
    intros E. apply (is_fresh (dom (nodes w))). rewrite E. apply elem_of_dom. eauto. }
  repeat split; try done.
  erewrite getHTML_found; [done | done | | done | done].
  cbn [nodes set_nodes]. by apply Hframe.
Qed.

(** *** The emitter *)

Lemma filter_filter_andb {A} (f g : A -> bool) (l : list A) :
  List.filter g (List.filter f l) = List.filter (fun x => f x && g x) l.
Proof.
  induction l as [|x l IH]; [done|]. simpl.
  destruct (f x); simpl; [destruct (g x)|]; by rewrite IH.
Qed.

Lemma filter_all {A} (l : list A) : List.filter (fun _ => true) l = l.
Proof. induction l as [|x l IH]; [done|]. simpl. by rewrite IH. Qed.

(** A removal keeps the listeners a test selects. *)
Lemma remove_filter {F} (same : F -> F -> bool) key f ctx once :
  exists keep, forall E : Emitter.t F,
    Emitter.remove same key f ctx once E = List.filter keep E.
Proof. destruct f as [f|]; eexists; intros E; reflexivity. Qed.

Lemma invoke_run f args w :
  invoke f args w =
  if is_function f then
    (match call_throws (invoked w) f args with Some e => Throw e | None => Ok tt end,
     set_invoked (invoked w ++ [(f, args)]) w)
  else (Throw (Js.TypeError "listener is not a function"), w).
Proof.
  unfold invoke. destruct (is_function f); [|done].
  by destruct (call_throws (invoked w) f args).
Qed.

Lemma EventEmitter_update_run em f w E :
  emitters w !! em = Some E ->
  EventEmitter_update em f w = (Ok tt, set_emitters (<[em := f E]> (emitters w)) w).
Proof. unfold EventEmitter_update. by intros ->. Qed.

Lemma world_same w E em :
  emitters w !! em = Some E ->
  set_invoked (invoked w ++ []) (set_emitters (<[em := E]> (emitters w)) w) = w.
Proof.
  intros He. destruct w as [d fm qs hs es inv]. unfold set_invoked, set_emitters.
  simpl in *. by rewrite app_nil_r, insert_id.
Qed.

(** The loop of [emit] on an emitter of the facade: the calls are those of
    [attempts], and the emitter keeps a selection of its listeners. *)
Lemma emit_loop_run em ev args snapshot :
  forall w E,
    emitters w !! em = Some E ->
    let a := attempts (invoked w) args (Emitter.fn <$> snapshot) in
    exists keep,
      emit_loop
        (fun f => EventEmitter_update em
                    (Emitter.remove Js.strict_equal (Js.VString ev) (given f)
                                    Js.VUndefined (Js.VBool true)))
        (fun f => invoke f args) snapshot w
      = (match a.2 with Some e => Throw e | None => Ok tt end,
         set_invoked (invoked w ++ a.1)
           (set_emitters (<[em := List.filter keep E]> (emitters w)) w)).
Proof.
  induction snapshot as [|l rest IH]; intros w E He; cbn zeta.
  - exists (fun _ => true). cbn [fmap list_fmap attempts emit_loop fst snd].
    unfold ret. by rewrite filter_all, world_same.
  - assert (exists k w1,
              (if Emitter.once_only l
               then EventEmitter_update em
                      (Emitter.remove Js.strict_equal (Js.VString ev)
                         (given (Emitter.fn l)) Js.VUndefined (Js.VBool true))
               else ret tt) w = (Ok tt, w1) /\
              w1 = set_emitters (<[em := List.filter k E]> (emitters w)) w)
      as (k & w1 & Hdrop & Hw1).
    { destruct (Emitter.once_only l).
      - destruct (remove_filter Js.strict_equal (Js.VString ev) (given (Emitter.fn l))
                    Js.VUndefined (Js.VBool true)) as [k Hk].
        exists k. eexists. split; [by apply EventEmitter_update_run|]. by rewrite Hk.
      - exists (fun _ => true), w. split; [done|].
        rewrite filter_all. destruct w as [d fm qs hs es inv]. unfold set_emitters.
        simpl in *. by rewrite insert_id. }
    cbn [emit_loop fmap list_fmap attempts]. unfold bind at 1. rewrite Hdrop.
    unfold bind at 1. rewrite invoke_run.
    assert (invoked w1 = invoked w) as Hi by (by subst w1).
    rewrite Hi.
    destruct (is_function (Emitter.fn l)).
    2:{ exists k. cbn [fst snd]. subst w1. by rewrite app_nil_r. }
    destruct (call_throws (invoked w) (Emitter.fn l) args) as [e|].
    { exists k. cbn [fst snd]. by subst w1. }
    destruct (IH (set_invoked (invoked w ++ [(Emitter.fn l, args)]) w1)
                 (List.filter k E)) as [k' Hk'].
    { subst w1. simpl. by rewrite lookup_insert_eq. }
    cbn zeta in Hk'. rewrite Hk'. exists (fun x => k x && k' x).
    cbn [fst snd invoked set_invoked]. f_equal. subst w1.
    unfold set_invoked, set_emitters. cbn.
    by rewrite insert_insert_eq, filter_filter_andb, <- app_assoc.
Qed.

Lemma EventEmitter_emit_run em ev args w E :
  emitters w !! em = Some E ->
  let a := attempts (invoked w) args (functions ev E) in
  exists keep,
    EventEmitter_emit em ev args w
    = (match a.2 with Some e => Throw e | None => Ok tt end,
       set_invoked (invoked w ++ a.1)
         (set_emitters (<[em := List.filter keep E]> (emitters w)) w)).
Proof.
  intros He. unfold EventEmitter_emit. rewrite He.
  by apply emit_loop_run.
Qed.

(** What [attempts] calls: functions among [fs], with [args], in order; all
    of them once when nothing ends the emission. *)
Lemma attempts_calls log args fs :
  Forall (fun i => i.1 ∈ fs /\ i.2 = args) (attempts log args fs).1.
Proof.
  revert log. induction fs as [|f fs IH]; intros log; cbn [attempts]; [by constructor|].
  destruct (is_function f); [|by constructor].
  destruct (call_throws log f args); cbn [fst].
  - constructor; [|by constructor]. split; [left | done].
  - constructor; [split; [left | done]|].
    eapply Forall_impl; [apply IH|]. intros i [Hi ?]. split; [by right | done].
Qed.

Lemma attempts_complete log args fs :
  (attempts log args fs).2 = None ->
  (attempts log args fs).1 = (fun f => (f, args)) <$> fs.
Proof.
  revert log. induction fs as [|f fs IH]; intros log; cbn [attempts]; [done|].
  destruct (is_function f); [|done].
  destruct (call_throws log f args); cbn [fst snd]; [done|].
  intros Hn. by rewrite IH.
Qed.


(** *** The widget's reports *)

Lemma Quill_call_run q qo method args w :
  quills w !! q = Some qo ->
  Quill_call q method args w =
  let o := Quill_method method args (formats w) (document qo) (nodes w) in
  (let* _ := for_each (reported o) (fun r =>
               let* _ := settle q (document_then r) (nodes_then r) in
               deliver q (native r)) in
   let* _ := settle q (document_after o) (nodes_after o) in
   match returned o with inl e => throw e | inr v => ret v end) w.
Proof. unfold Quill_call. by intros ->. Qed.

Lemma listens_text_change {F} ev (l : Emitter.listener F) :
  Emitter.event l = Js.VString "text-change" ->
  Emitter.listens ev l = String.eqb "text-change" ev.
Proof. unfold Emitter.listens, Emitter.keyed. by intros ->. Qed.

(** A report of the widget of a wired facade is an emission on the facade's
    emitter, or nothing. *)
Lemma deliver_wired this w event qo :
  quills w !! _quill this = Some qo ->
  native_listeners qo = [forwarding this] ->
  deliver (_quill this) event w =
  if String.eqb "text-change" event.1
  then EventEmitter_emit (_emitter this) "text-change" [] w
  else (Ok tt, w).
Proof.
  intros Hq Hl. unfold deliver. rewrite Hq, Hl.
  unfold Emitter.listeners. cbn [List.filter].
  rewrite (listens_text_change _ (forwarding this)) by done.
  destruct (String.eqb "text-change" event.1); [|done].
  cbn [emit_loop forwarding Emitter.once_only Emitter.fn run_callback].
  unfold bind, ret.
  by destruct (EventEmitter_emit (_emitter this) "text-change" [] w) as [[[]|e] w'].
Qed.

Lemma wired_frame this w w' :
  wired this w ->
  native_listeners <$> quills w' !! _quill this
    = native_listeners <$> quills w !! _quill this ->
  (is_Some (emitters w !! _emitter this) -> is_Some (emitters w' !! _emitter this)) ->
  wired this w'.
Proof.
  intros [(qo & Hq & Hl) He] Hq' He'. split; [|auto].
  rewrite Hq in Hq'. destruct (quills w' !! _quill this) as [qo'|]; [|done].
  exists qo'. split; [done|]. injection Hq' as ->. done.
Qed.

(** One report of the widget of [this], in a wired world. *)
Lemma deliver_wired_run this w event E :
  wired this w ->
  emitters w !! _emitter this = Some E ->
  let a := attempts (invoked w) [] (functions "text-change" E) in
  exists keep,
    deliver (_quill this) event w =
    if String.eqb "text-change" event.1
    then (match a.2 with Some e => Throw e | None => Ok tt end,
          set_invoked (invoked w ++ a.1)
            (set_emitters (<[_emitter this := List.filter keep E]> (emitters w)) w))
    else (Ok tt, w).
Proof.
  intros [(qo & Hq & Hl) _] He. cbn zeta.
  destruct (EventEmitter_emit_run (_emitter this) "text-change" [] w E He) as [keep Hk].
  exists keep. rewrite (deliver_wired this w event qo Hq Hl).
  by destruct (String.eqb "text-change" event.1).
Qed.

Lemma deliver_preserves_wired this event : preserves this (deliver (_quill this) event).
Proof.
  intros w Hw. pose proof Hw as [_ [E He]].
  destruct (deliver_wired_run this w event E Hw He) as [keep ->].
  destruct (String.eqb "text-change" event.1); [|done].
  apply (wired_frame this w); [done | done |]. intros _. simpl.
  by rewrite lookup_insert_eq.
Qed.

Lemma settle_preserves_wired this doc d : preserves this (settle (_quill this) doc d).
Proof.
  intros w Hw. pose proof Hw as [(qo & Hq & Hl) _].
  apply (wired_frame this w); [done | | done]. simpl.
  by rewrite lookup_alter_eq, Hq.
Qed.

Lemma preserves_ret {A} this (a : A) : preserves this (ret a).
Proof. by intros w. Qed.

Lemma preserves_throw {A} this e : preserves this (throw (A:=A) e).
Proof. by intros w. Qed.

Lemma preserves_bind {A B} this (m : M A) (k : A -> M B) :
  preserves this m -> (forall a, preserves this (k a)) -> preserves this (bind m k).
Proof.
  intros Hm Hk w Hw. unfold bind. specialize (Hm w Hw).
  destruct (m w) as [[a|e] w1]; [by apply Hk | done].
Qed.

Lemma preserves_for_each {A} this (l : list A) body :
  (forall x, preserves this (body x)) -> preserves this (for_each l body).
Proof.
  intros Hb. induction l as [|x l IH]; [apply preserves_ret|].
  apply preserves_bind; [apply Hb | by intros _].
Qed.

Lemma preserves_Quill_call this method args :
  preserves this (Quill_call (_quill this) method args).
Proof.
  intros w Hw. pose proof Hw as [(qo & Hq & Hl) _].
  rewrite (Quill_call_run _ qo) by done. cbn zeta.
  generalize (Quill_method method args (formats w) (document qo) (nodes w)).
  intros o. revert w Hw Hq. 
  cut (preserves this
         (let* _ := for_each (reported o) (fun r =>
                      let* _ := settle (_quill this) (document_then r) (nodes_then r) in
                      deliver (_quill this) (native r)) in
          let* _ := settle (_quill this) (document_after o) (nodes_after o) in
          match returned o with inl e => throw e | inr v => ret v end)).
  { intros Hp w Hw _. by apply Hp. }
  apply preserves_bind; [|intros _; apply preserves_bind; [|intros _]].
  - apply preserves_for_each. intros r. apply preserves_bind;
      [apply settle_preserves_wired | intros _; apply deliver_preserves_wired].
  - apply settle_preserves_wired.
  - destruct (returned o); [apply preserves_throw | apply preserves_ret].
Qed.

(** *** The constructor *)

Lemma fresh_quill w q :
  is_Some (quills w !! q) -> fresh (dom (quills w) ∪ husks w) <> q.
Proof.
  intros Hq E. apply (is_fresh (dom (quills w) ∪ husks w)). rewrite E.
  apply elem_of_union. left. by apply elem_of_dom.
Qed.

Lemma fresh_emitter w em :
  is_Some (emitters w !! em) -> fresh (dom (emitters w)) <> em.
Proof.
  intros He E. apply (is_fresh (dom (emitters w))). rewrite E. by apply elem_of_dom.
Qed.

(** A construction that returns: the widget was set up and the link format
    is registered. *)
Lemma constructor_run container options w this w' :
  constructor container options w = (Ok this, w') ->
  exists doc d cls,
    Quill_construct container options (formats w) (nodes w) = inr (Some (doc, d)) /\
    formats w !! "formats/link" = Some cls /\
    this = Build container (fresh (dom (quills w) ∪ husks w))
                 (fresh (dom (emitters w))) /\
    w' = World d
           (<["formats/link" := FormatClass Link.sanitize]> (formats w))
           (<[_quill this := QuillObject doc [forwarding this]]> (quills w))
           (husks w)
           (<[_emitter this := []]> (emitters w))
           (invoked w).
Proof.
  unfold constructor, bind, Quill_new.
  destruct (Quill_construct container options (formats w) (nodes w))
    as [e|[[doc d]|]] eqn:Ec; [done| |].
  - unfold EventEmitter_new, Quill_on, Quill_update.
    cbn [quills set_quills set_emitters set_nodes].
    rewrite lookup_insert_eq. unfold Quill_import.
    cbn [formats set_quills set_emitters set_nodes].
    destruct (formats w !! "formats/link") as [cls|] eqn:Ef; simpl; [|done].
    intros [= <- <-]. exists doc, d, cls. repeat split; try done.
    unfold set_formats, set_quills, forwarding. simpl. f_equal.
    by rewrite insert_insert_eq.
  - unfold EventEmitter_new, Quill_on, Quill_update.
    cbn [quills set_quills set_emitters set_nodes set_husks].
    by rewrite (not_elem_of_dom_1 (quills w))
      by (intros Hin; apply (is_fresh (dom (quills w) ∪ husks w));
          apply elem_of_union; by left).
Qed.

Lemma constructor_wired container options w this w' :
  constructor container options w = (Ok this, w') -> wired this w'.
Proof.
  intros (doc & d & cls & Hc & Hf & Ht & ->)%constructor_run.
  split; simpl; rewrite lookup_insert_eq; eauto.
Qed.

Lemma preserves_EventEmitter_update this f :
  preserves this (EventEmitter_update (_emitter this) f).
Proof.
  intros w Hw. unfold EventEmitter_update.
  destruct (emitters w !! _emitter this) as [E|] eqn:He; [|done].
  apply (wired_frame this w); [done|done|]. intros _. simpl.
  by rewrite lookup_insert_eq.
Qed.

Lemma preserves_EventEmitter_add this once args :
  preserves this (EventEmitter_add (_emitter this) once args).
Proof.
  unfold EventEmitter_add.
  destruct (negb (is_function (Js.arg 1 args)));
    [apply preserves_throw | apply preserves_EventEmitter_update].
Qed.

Lemma preserves_getHTML this : preserves this (getHTML this).
Proof.
  intros w Hw. destruct (getHTML_world this w) as [->|[ed ->]]; [done|].
  by apply (wired_frame this w).
Qed.

Lemma preserves_constructor this container options :
  preserves this (constructor container options).
Proof.
  intros w Hw. pose proof Hw as [(qo & Hq & Hl) He].
  assert (fresh (dom (quills w) ∪ husks w) <> _quill this) as Hfq
    by (apply fresh_quill; eauto).
  assert (fresh (dom (emitters w)) <> _emitter this) as Hfe
    by (by apply fresh_emitter).
  unfold constructor, bind, Quill_new.
  destruct (Quill_construct container options (formats w) (nodes w))
    as [e|[[doc d]|]] eqn:Ec; [done| |].
  - unfold EventEmitter_new, Quill_on, Quill_update.
    cbn [quills set_quills set_emitters set_nodes].
    rewrite lookup_insert_eq. unfold Quill_import.
    cbn [formats set_quills set_emitters set_nodes].
    destruct (formats w !! "formats/link") as [cls|] eqn:Ef; simpl.
    all: apply (wired_frame this w); [done | |]; simpl.
    all: rewrite ?lookup_insert_ne by done; done.
  - unfold EventEmitter_new, Quill_on, Quill_update.
    cbn [quills set_quills set_emitters set_nodes set_husks].
    rewrite (not_elem_of_dom_1 (quills w))
      by (intros Hin; apply (is_fresh (dom (quills w) ∪ husks w));
          apply elem_of_union; by left).
    apply (wired_frame this w); [done | |]; simpl.
    all: rewrite ?lookup_insert_ne by done; done.
Qed.

Lemma run_preserves_wired this c w : wired this w -> wired this (run this c w).
Proof.
  revert w. destruct c; cbn [run].
  all: try (intros w Hw; by apply deliver_preserves_wired).
  all: try (unfold setHTML, removeFormat, insertHTML, insertText, deleteText,
              getText, getLength, isBlank, getSelection, setSelection, on, off, once,
              EventEmitter_remove).
  all: try match goal with
           | |- forall w, wired ?t w -> wired ?t (?m w).2 => change (preserves t m)
           end.
  all: repeat first
         [ apply preserves_getHTML
         | apply preserves_constructor
         | apply preserves_EventEmitter_add
         | apply preserves_EventEmitter_update
         | apply preserves_Quill_call
         | apply preserves_ret
         | apply preserves_bind; [|intros ?]
         | match goal with |- preserves _ (if ?b then _ else _) => destruct b end ].
Qed.

Lemma reachable_wired this w0 w :
  wired this w0 -> reachable this w0 w -> wired this w.
Proof. intros Hw0. induction 1; [done | by apply run_preserves_wired]. Qed.

(** *** The insertion index *)

Lemma index_missing_cases v :
  index_missing v =
  match v with
  | Js.VUndefined | Js.VNull | Js.VBool false | Js.VNumber S754_nan
  | Js.VBigInt 0 | Js.VString EmptyString | Js.VDocumentAll => true
  | _ => false
  end.
Proof.
  destruct v as [| |[]|[[]| | |]|[| |]|[|a s]| | |]; reflexivity.
Qed.

(** C2 (as amended): [insertHTML] and [insertText] take the insertion index
    from [getLength()] exactly when the index argument is omitted or is a
    falsy value other than the numbers [0] and [-0], that is [undefined],
    [null], [false], [NaN], the empty string, the BigInt [0n] or
    [document.all]; every other value, the literal [0] and [-0] included, is
    passed to the widget as given, without a call of [getLength()]. *)
Theorem insert_index_default this html text name index w :
  index_missing index =
    match index with
    | Js.VUndefined | Js.VNull | Js.VBool false | Js.VNumber S754_nan
    | Js.VBigInt 0 | Js.VString EmptyString | Js.VDocumentAll => true
    | _ => false
    end /\
  insertHTML this [html; index] w =
    (if index_missing index then insertHTML this [html] w
     else pasteHTML_at this index html w) /\
  insertHTML this [html] w =
    (let* n := getLength this in pasteHTML_at this n html) w /\
  insertText this [text; name; index] w =
    (if index_missing index then insertText this [text; name] w
     else insertText_at this index text name w) /\
  insertText this [text; name] w =
    (let* n := getLength this in insertText_at this n text name) w.
Proof.
  split; [apply index_missing_cases|].
  unfold insertHTML, insertText, pasteHTML_at, insertText_at, Js.arg. simpl.
  destruct (index_missing index); repeat split.
Qed.

(** *** What a widget call answers *)

Lemma Quill_call_result q qo method args w :
  quills w !! q = Some qo ->
  (Quill_call q method args w).1 =
  match interruption q method args w with
  | Some e => Throw e
  | None =>
      match returned (Quill_method method args (formats w) (document qo) (nodes w)) with
      | inl e => Throw e
      | inr v => Ok v
      end
  end.
Proof.
  intros Hq. rewrite (Quill_call_run _ qo) by done. unfold interruption. rewrite Hq.
  cbn zeta. unfold bind at 1.
  destruct (for_each _ _ w) as [[[]|e] w1]; [|done].
  unfold bind, settle, throw, ret. by destruct (returned _).
Qed.


(** *** Event forwarding *)

Lemma attempts_none log args fs :
  (forall log' f, f ∈ fs -> is_function f = true /\ call_throws log' f args = None) ->
  (attempts log args fs).2 = None.
Proof.
  revert log. induction fs as [|f fs IH]; intros log Hfs; cbn [attempts]; [done|].
  destruct (Hfs log f) as [-> ->]; [left|]. cbn [snd].
  apply IH. intros log' g Hg. apply Hfs. by right.
Qed.

Lemma functions_add ev h ctx once E :
  functions ev (Emitter.add (Js.VString ev) h ctx once E) = functions ev E ++ [h].
Proof.
  unfold functions, Emitter.listeners, Emitter.add. rewrite List.filter_app.
  cbn [List.filter]. unfold Emitter.listens at 2, Emitter.keyed.
  cbn [Emitter.event Js.strict_equal]. rewrite String.eqb_refl.
  by rewrite fmap_app.
Qed.

(** [on(ev, h)] and [once(ev, h)] with a function [h]. *)
Lemma EventEmitter_add_run em once ev h w E :
  emitters w !! em = Some E ->
  is_function h = true ->
  EventEmitter_add em once [Js.VString ev; h] w =
  (Ok tt,
   set_emitters (<[em := Emitter.add (Js.VString ev) h (Js.VObject em) once E]>
                   (emitters w)) w).
Proof.
  intros He Hh. unfold EventEmitter_add.
  change (Js.arg 0 [Js.VString ev; h]) with (Js.VString ev).
  change (Js.arg 1 [Js.VString ev; h]) with h.
  change (Js.arg 2 [Js.VString ev; h]) with Js.VUndefined.
  cbn zeta. rewrite Hh. by apply EventEmitter_update_run.
Qed.


(** *** The listeners are functions *)

Lemma keeps_ret {A} P (a : A) : keeps P (ret a).
Proof. by intros w. Qed.

Lemma keeps_throw {A} P e : keeps P (throw (A:=A) e).
Proof. by intros w. Qed.

Lemma keeps_bind {A B} P (m : M A) (k : A -> M B) :
  keeps P m -> (forall a, keeps P (k a)) -> keeps P (bind m k).
Proof.
  intros Hm Hk w Hw. unfold bind. specialize (Hm w Hw).
  destruct (m w) as [[a|e] w1]; [by apply Hk | done].
Qed.

Lemma keeps_for_each {A} P (l : list A) body :
  (forall x, keeps P (body x)) -> keeps P (for_each l body).
Proof.
  intros Hb. induction l as [|x l IH]; [apply keeps_ret|].
  apply keeps_bind; [apply Hb | by intros _].
Qed.

Lemma Forall_filter {A} (P : A -> Prop) keep (l : list A) :
  Forall P l -> Forall P (List.filter keep l).
Proof.
  induction 1 as [|x l Hx Hl IH]; [constructor|]. simpl.
  destruct (keep x); [by constructor | done].
Qed.

(** The emitter of [this] is as before, or holds a selection of its
    listeners, or one more function. *)
Lemma functional_frame this w w' :
  functional this w ->
  wired this w' ->
  (forall E, emitters w !! _emitter this = Some E ->
     emitters w' !! _emitter this = Some E \/
     (exists keep, emitters w' !! _emitter this = Some (List.filter keep E)) \/
     (exists l, is_function (Emitter.fn l) = true /\
                emitters w' !! _emitter this = Some (E ++ [l]))) ->
  functional this w'.
Proof.
  intros [Hw Hf] Hw' Hstep. split; [done|]. intros E' He'.
  pose proof Hw as [_ [E He]].
  destruct (Hstep E He) as [Hs|[[keep Hs]|(l & Hl & Hs)]];
    rewrite Hs in He'; injection He' as <-.
  - by apply Hf.
  - by apply Forall_filter, Hf.
  - apply Forall_app. split; [by apply Hf | by constructor].
Qed.

Lemma keeps_functional_settle this doc d :
  keeps (functional this) (settle (_quill this) doc d).
Proof.
  intros w Hf. apply (functional_frame this w); [done| |by left].
  apply settle_preserves_wired, Hf.
Qed.

Lemma keeps_functional_deliver this event :
  keeps (functional this) (deliver (_quill this) event).
Proof.
  intros w Hf. pose proof Hf as [Hw _].
  apply (functional_frame this w); [done | by apply deliver_preserves_wired|].
  intros E He. destruct (deliver_wired_run this w event E Hw He) as [keep ->].
  destruct (String.eqb "text-change" event.1); [|by left].
  right. left. exists keep. simpl. by rewrite lookup_insert_eq.
Qed.










(** In an emitter whose listeners are functions, the only end of an
    emission is a handler's exception. *)
Lemma attempts_quiet log args fs :
  Forall (fun f => is_function f = true) fs ->
  (forall log' f, f ∈ fs -> call_throws log' f args = None) ->
  (attempts log args fs).2 = None.
Proof.
  intros Hfs Hquiet. apply attempts_none. intros log' f Hin. split; [|by apply Hquiet].
  rewrite Forall_forall in Hfs. by apply Hfs.
Qed.


Lemma functions_functional ev E :
  Forall (fun l => is_function (Emitter.fn l) = true) E ->
  Forall (fun f => is_function f = true) (functions ev E).
Proof.
  intros HE. unfold functions, Emitter.listeners. apply Forall_fmap.
  by apply Forall_filter.
Qed.

(** *** Calls no handler interrupts *)

Lemma returns_ret {A} P (a : A) : returns P (ret a).
Proof. intros w Hw. split; [done | by exists a]. Qed.

Lemma returns_bind {A B} P (m : M A) (k : A -> M B) :
  returns P m -> (forall a, returns P (k a)) -> returns P (bind m k).
Proof.
  intros Hm Hk w Hw. unfold bind. destruct (Hm w Hw) as [Hw1 [a Ha]].
  destruct (m w) as [[a'|e] w1]; [|done]. by apply Hk.
Qed.

Lemma returns_for_each {A} P (l : list A) body :
  (forall x, returns P (body x)) -> returns P (for_each l body).
Proof.
  intros Hb. induction l as [|x l IH]; [apply returns_ret|].
  apply returns_bind; [apply Hb | by intros _].
Qed.

Lemma listeners_filter {F} ev keep (E : Emitter.t F) :
  Emitter.listeners ev (List.filter keep E) ⊆ Emitter.listeners ev E.
Proof.
  unfold Emitter.listeners. intros l. rewrite !list_elem_of_In, !filter_In. tauto.
Qed.

Lemma functions_filter ev keep E :
  functions ev (List.filter keep E) ⊆ functions ev E.
Proof.
  unfold functions. intros f (l & -> & Hl)%list_elem_of_fmap.
  apply list_elem_of_fmap. exists l. split; [done|].
  by apply (listeners_filter ev keep E).
Qed.

Lemma returns_settle this fs doc d :
  returns (listening this fs) (settle (_quill this) doc d).
Proof.
  intros w [Hf (E & He & Hsub)]. split; [|by eexists].
  split; [by apply keeps_functional_settle|]. by exists E.
Qed.

Lemma returns_deliver this fs event :
  (forall log f, f ∈ fs -> call_throws log f [] = None) ->
  returns (listening this fs) (deliver (_quill this) event).
Proof.
  intros Hquiet w [Hf (E & He & Hsub)].
  pose proof (keeps_functional_deliver this event w Hf) as Hf'.
  pose proof Hf as [Hw Hfun]. revert Hf'.
  destruct (deliver_wired_run this w event E Hw He) as [keep ->].
  destruct (String.eqb "text-change" event.1); intros Hf'.
  - split.
    + split; [done|]. exists (List.filter keep E). split.
      * simpl. by rewrite lookup_insert_eq.
      * etrans; [apply functions_filter | done].
    + rewrite attempts_quiet; [by eexists | |].
      * by apply functions_functional, Hfun.
      * intros log f Hin. apply Hquiet. by apply Hsub.
  - split; [|by eexists]. split; [done|]. by exists E.
Qed.

(** On a facade whose handlers do not throw, no widget call is
    interrupted. *)
Lemma interruption_quiet this w E method args :
  functional this w ->
  emitters w !! _emitter this = Some E ->
  (forall log f, f ∈ functions "text-change" E -> call_throws log f [] = None) ->
  interruption (_quill this) method args w = None.
Proof.
  intros Hf He Hquiet. unfold interruption.
  destruct (quills w !! _quill this) as [qo|]; [|done]. cbn zeta.
  generalize (Quill_method method args (formats w) (document qo) (nodes w)).
  intros o.
  assert (returns (listening this (functions "text-change" E))
            (for_each (reported o) (fun r =>
               let* _ := settle (_quill this) (document_then r) (nodes_then r) in
               deliver (_quill this) (native r)))) as Hr.
  { apply returns_for_each. intros r. apply returns_bind;
      [apply returns_settle | intros _; by apply returns_deliver]. }
  destruct (Hr w) as [_ [a Ha]].
  { split; [done|]. by exists E. }
  by destruct (for_each _ _ w) as [[?|?] ?].
Qed.


(** *** Missing content *)


(** *** The shared sanitizer *)



End EditorFacts.
End EditorFacts.
(** ** The whole interface *)

Module InterfaceFacts.
Import Dom Reference DomFacts Editor EditorFacts Observe.
Import JsString JsStringFacts LinkFacts.

Lemma length_append (s t : string) :
  String.length (s +:+ t) = (String.length s + String.length t)%nat.
Proof. induction s as [|a s IH]; simpl; [done | by rewrite IH]. Qed.

(** X1: whatever the destination, the sanitized one begins with [http],
    is the destination itself or the destination after [https://], and is
    as long as the destination or eight characters longer: nothing of the
    destination is dropped or rewritten. *)
Theorem sanitize_result_shape url :
  String.prefix "http" (Link.sanitize url) = true /\
  (Link.sanitize url = url \/ Link.sanitize url = "https://" +:+ url) /\
  String.length (Link.sanitize url) =
    (if String.prefix "http" url then String.length url
     else 8 + String.length url)%nat.
Proof.
  rewrite sanitize_unfold. destruct (String.prefix "http" url) eqn:E.
  - repeat split; [done | by left].
  - split; [|split; [by right | by rewrite length_append]].
    apply (prefix_trans _ "https://"); [done | apply prefix_append].
Qed.

Lemma alter_selected_idempotent sel g n :
  (forall a, g (g a) = g a) ->
  (forall a kids, selects sel (Element (g a) kids) = selects sel (Element a kids)) ->
  alter_selected sel g (alter_selected sel g n) = alter_selected sel g n.
Proof.
  intros Hg Hs. induction n as [s|a kids IH] using node_rect'; [done|].
  cbn [alter_selected]. f_equal.
  - rewrite (selects_attributes sel _ _ kids).
    destruct (selects sel (Element a kids)) eqn:E.
    + by rewrite Hs, E.
    + by rewrite E.
  - rewrite <- list_fmap_compose. apply Forall_fmap_ext_1.
    eapply Forall_impl; [exact IH|]. done.
Qed.

Lemma paragraph_loop_normalizes n :
  paragraph_loop n =
  match n with
  | Text _ => n
  | Element a kids => Element a (normalize_paragraphs kids)
  end.
Proof.
  unfold paragraph_loop. destruct n as [s|a kids]; [done|].
  erewrite alter_each_ext by apply set_style_zero_twice.
  apply alter_each_querySelectorAll.
Qed.

(** X13: the loop of [getHTML] is idempotent: run again on the element it
    has normalized, it finds the same paragraphs and leaves every style
    declaration where the first run put it, so content that went through
    [getHTML] once is not changed by going through its loop again. *)
Theorem paragraph_loop_idempotent n :
  paragraph_loop (paragraph_loop n) = paragraph_loop n.
Proof.
  rewrite !paragraph_loop_normalizes. destruct n as [s|a kids]; [done|].
  f_equal. unfold normalize_paragraphs. rewrite <- list_fmap_compose.
  apply list_fmap_ext. intros i k _. simpl.
  apply alter_selected_idempotent; [apply zero_box_idempotent | done].
Qed.

Section InterfaceFacts.
Context `{Browser} `{QuillLibrary} `{Host}.



(** X4: when the index is missing and [getLength] throws, [insertHTML] and
    [insertText] throw the same exception and stop there: the process is the
    one [getLength] left, no insertion is requested.  [getLength] throws
    what the widget's [getLength] throws, unless a listener has thrown
    before. *)
Theorem missing_index_getLength_failure this html text name index w e :
  index_missing index = true ->
  ((getLength this w).1 = Throw e ->
   insertHTML this [html; index] w = (Throw e, (getLength this w).2) /\
   insertText this [text; name; index] w = (Throw e, (getLength this w).2)) /\
  (forall qo,
     quills w !! _quill this = Some qo ->
     returned (Quill_method "getLength" [] (formats w) (document qo) (nodes w)) = inl e ->
     interruption (_quill this) "getLength" [] w = None ->
     (getLength this w).1 = Throw e).
Proof.
  intros Hm. split.
  - intros He. unfold insertHTML, insertText.
    change (Js.arg 1 [html; index]) with index.
    change (Js.arg 2 [text; name; index]) with index.
    rewrite Hm. unfold bind. revert He.
    destruct (getLength this w) as [[v|e'] w1]; simpl; [done|]. by intros [= ->].
  - intros qo Hq He Hi. unfold getLength.
    by rewrite (Quill_call_result _ qo), Hi, He.
Qed.

(** *** The registry *)

Lemma invoke_formats f args w : formats (invoke f args w).2 = formats w.
Proof. rewrite invoke_run. by destruct (is_function f). Qed.

Lemma EventEmitter_update_formats em f w :
  formats (EventEmitter_update em f w).2 = formats w.
Proof. unfold EventEmitter_update. by destruct (emitters w !! em). Qed.

Lemma Quill_update_formats q f w : formats (Quill_update q f w).2 = formats w.
Proof. unfold Quill_update. by destruct (quills w !! q). Qed.

Lemma bind_formats {A B} (m : M A) (k : A -> M B) w :
  (forall w, formats (m w).2 = formats w) ->
  (forall a w, formats (k a w).2 = formats w) ->
  formats (bind m k w).2 = formats w.
Proof.
  intros Hm Hk. unfold bind. specialize (Hm w).
  destruct (m w) as [[a|e] w1]; [by rewrite Hk | done].
Qed.

Lemma for_each_formats {A} (l : list A) body :
  (forall x w, formats (body x w).2 = formats w) ->
  forall w, formats (for_each l body w).2 = formats w.
Proof.
  intros Hb. induction l as [|x l IH]; intros w; [done|].
  cbn [for_each]. apply bind_formats; [apply Hb | by intros _].
Qed.

Lemma emit_loop_formats {F} drop call (snapshot : list (Emitter.listener F)) :
  (forall f w, formats (drop f w).2 = formats w) ->
  (forall f w, formats (call f w).2 = formats w) ->
  forall w, formats (emit_loop drop call snapshot w).2 = formats w.
Proof.
  intros Hd Hc. induction snapshot as [|l rest IH]; intros w; [done|].
  cbn [emit_loop]. apply bind_formats.
  - intros w'. destruct (Emitter.once_only l); [apply Hd | done].
  - intros _ w'. apply bind_formats; [apply Hc | by intros _].
Qed.

Lemma EventEmitter_emit_formats em ev args w :
  formats (EventEmitter_emit em ev args w).2 = formats w.
Proof.
  unfold EventEmitter_emit. destruct (emitters w !! em) as [E|]; [|done].
  apply emit_loop_formats; intros f w'.
  - apply EventEmitter_update_formats.
  - apply invoke_formats.
Qed.

Lemma deliver_formats q event w : formats (deliver q event w).2 = formats w.
Proof.
  unfold deliver. destruct (quills w !! q) as [qo|]; [|done].
  apply emit_loop_formats; intros c w'.
  - apply Quill_update_formats.
  - destruct c as [em ev|f]; [apply EventEmitter_emit_formats | apply invoke_formats].
Qed.

Lemma Quill_call_formats q method args w :
  formats (Quill_call q method args w).2 = formats w.
Proof.
  unfold Quill_call. destruct (quills w !! q) as [qo|]; [|done].
  cbn zeta. generalize (Quill_method method args (formats w) (document qo) (nodes w)).
  intros o. apply bind_formats.
  - apply for_each_formats. intros r w'. apply bind_formats; [done|].
    intros _. apply deliver_formats.
  - intros _ w'. apply bind_formats; [done|]. intros _ w''. by destruct (returned o).
Qed.

Lemma constructor_formats container options w :
  formats (constructor container options w).2 = formats w \/
  (exists this, (constructor container options w).1 = Ok this) /\
  formats (constructor container options w).2
    = <["formats/link" := FormatClass Link.sanitize]> (formats w).
Proof.
  destruct (constructor container options w) as [[this|e] w'] eqn:Hc.
  - right. apply constructor_run in Hc as (doc & d & cls & _ & _ & _ & ->).
    split; [eauto | done].
  - left. revert Hc. unfold constructor, bind, Quill_new.
    destruct (Quill_construct _ _ _ _) as [e'|[[doc d]|]].
    + by intros [= _ <-].
    + unfold EventEmitter_new, Quill_on, Quill_update.
      cbn [quills set_quills set_emitters set_nodes].
      rewrite lookup_insert_eq. unfold Quill_import.
      cbn [formats set_quills set_emitters set_nodes].
      destruct (formats w !! "formats/link"); simpl; [done|]. by intros [= _ <-].
    + unfold EventEmitter_new, Quill_on, Quill_update.
      cbn [quills set_quills set_emitters set_nodes set_husks].
      destruct (quills w !! _); simpl.
      * unfold Quill_import. simpl. destruct (formats w !! "formats/link"); simpl; [done|].
        by intros [= _ <-].
      * by intros [= _ <-].
Qed.

(** Every call but a construction leaves the registry alone; a construction
    leaves it alone or installs the sanitizer. *)
Lemma run_formats this c w :
  formats (run this c w) = formats w \/
  formats (run this c w) = <["formats/link" := FormatClass Link.sanitize]> (formats w).
Proof.
  destruct c; cbn [run].
  16:{ left. apply deliver_formats. }
  15:{ destruct (constructor_formats container options w) as [?|[_ ?]]; auto. }
  1:{ left. by destruct (getHTML_world this w) as [->|[ed ->]]. }
  all: left.
  all: unfold setHTML, removeFormat, insertHTML, insertText, deleteText,
         getText, getLength, isBlank, getSelection, setSelection, on, off, once,
         EventEmitter_add, EventEmitter_remove.
  all: repeat first
         [ apply EventEmitter_update_formats
         | apply Quill_call_formats
         | reflexivity
         | apply bind_formats; [intros ?|intros ? ?]
         | match goal with |- context [if ?b then _ else _] => destruct b end ].
Qed.

(** X6: once a facade is constructed, whatever is done with it afterwards
    (any of its methods, events of its widget, other facades constructed)
    the class registered as [formats/link] keeps the facade's sanitizer: no
    method restores or replaces it. *)
Theorem sanitizer_stays_installed container options w0 this w1 w :
  constructor container options w0 = (Ok this, w1) ->
  reachable this w1 w ->
  sanitize <$> formats w !! "formats/link" = Some Link.sanitize.
Proof.
  intros (doc & d & cls & _ & _ & _ & ->)%constructor_run Hr.
  induction Hr as [|w c Hr IH]; [by simpl; rewrite lookup_insert_eq|].
  destruct (run_formats this c w) as [->| ->]; [done | by rewrite lookup_insert_eq].
Qed.


(** *** The handler calls *)

Lemma attempts_from_listeners log E E' :
  Emitter.listeners "text-change" E' ⊆ Emitter.listeners "text-change" E ->
  Forall (from_listeners E) (attempts log [] (functions "text-change" E')).1.
Proof.
  intros Hsub. eapply Forall_impl; [apply attempts_calls|].
  intros i [Hi Ha]. split; [done|].
  apply list_elem_of_fmap in Hi as (l & -> & Hl). exists l. split; [by apply Hsub | done].
Qed.

Lemma deliver_calling this w0 E event :
  keeps (calling this w0 E) (deliver (_quill this) event).
Proof.
  intros w [Hw (E' & extra & He & Hsub & Hi & Hf)].
  split; [by apply deliver_preserves_wired|].
  destruct (deliver_wired_run this w event E' Hw He) as [keep ->].
  destruct (String.eqb "text-change" event.1).
  - exists (List.filter keep E'),
           (extra ++ (attempts (invoked w) [] (functions "text-change" E')).1).
    cbn [snd emitters invoked set_invoked set_emitters].
    rewrite lookup_insert_eq. split; [done|]. split.
    { etrans; [apply listeners_filter | done]. }
    split; [by rewrite Hi, app_assoc|].
    apply Forall_app. split; [done | by apply attempts_from_listeners].
  - by exists E', extra.
Qed.

Lemma settle_calling this w0 E doc d :
  keeps (calling this w0 E) (settle (_quill this) doc d).
Proof.
  intros w [Hw (E' & extra & He & Hsub & Hi & Hf)].
  split; [by apply settle_preserves_wired|]. by exists E', extra.
Qed.

Lemma keeps_calling_Quill_call this w0 E method args :
  keeps (calling this w0 E) (Quill_call (_quill this) method args).
Proof.
  intros w Hc. pose proof Hc as [[(qo & Hq & _) _] _].
  rewrite (Quill_call_run _ qo) by done. cbn zeta.
  generalize (Quill_method method args (formats w) (document qo) (nodes w)).
  intros o. revert w Hc Hq.
  cut (keeps (calling this w0 E)
         (let* _ := for_each (reported o) (fun r =>
                      let* _ := settle (_quill this) (document_then r) (nodes_then r) in
                      deliver (_quill this) (native r)) in
          let* _ := settle (_quill this) (document_after o) (nodes_after o) in
          match returned o with inl e => throw e | inr v => ret v end)).
  { intros Hk w Hc _. by apply Hk. }
  apply keeps_bind; [|intros _; apply keeps_bind; [|intros _]].
  - apply keeps_for_each. intros r. apply keeps_bind;
      [apply settle_calling | intros _; apply deliver_calling].
  - apply settle_calling.
  - destruct (returned o); [apply keeps_throw | apply keeps_ret].
Qed.

Lemma calling_start this w E :
  wired this w -> emitters w !! _emitter this = Some E -> calling this w E w.
Proof.
  intros Hw He. split; [done|]. exists E, []. by rewrite app_nil_r.
Qed.

Lemma update_invoked em f w :
  invoked (EventEmitter_update em f w).2 = invoked w.
Proof. unfold EventEmitter_update. by destruct (emitters w !! em). Qed.

Lemma add_invoked em once args w :
  invoked (EventEmitter_add em once args w).2 = invoked w.
Proof.
  unfold EventEmitter_add. destruct (negb _); [done | apply update_invoked].
Qed.

Lemma constructor_invoked container options w :
  invoked (constructor container options w).2 = invoked w.
Proof.
  unfold constructor, bind, Quill_new.
  destruct (Quill_construct _ _ _ _) as [e|[[doc d]|]]; [done| |].
  - unfold EventEmitter_new, Quill_on, Quill_update.
    cbn [quills set_quills set_emitters set_nodes].
    rewrite lookup_insert_eq. unfold Quill_import.
    cbn [formats set_quills set_emitters set_nodes].
    by destruct (formats w !! "formats/link").
  - unfold EventEmitter_new, Quill_on, Quill_update.
    cbn [quills set_quills set_emitters set_nodes set_husks].
    destruct (quills w !! _); simpl; [|done].
    unfold Quill_import. simpl. by destruct (formats w !! "formats/link").
Qed.

(** X7: whatever is done with a wired facade (a method call, an event of
    its widget, another construction), the handler calls it causes are calls
    of functions that were subscribed to [text-change] on its emitter when
    the step began, each with no argument: a handler subscribed to another
    event name is never called, and no handler ever receives what the widget
    passed. *)
Theorem handlers_called_by_the_facade this c w E :
  wired this w ->
  emitters w !! _emitter this = Some E ->
  exists extra,
    invoked (run this c w) = invoked w ++ extra /\
    Forall (fun i => i.2 = [] /\
                     exists l, l ∈ Emitter.listeners "text-change" E /\
                               Emitter.fn l = i.1) extra.
Proof.
  intros Hw He.
  assert (calling this w E (run this c w) ->
          exists extra, invoked (run this c w) = invoked w ++ extra /\
                        Forall (from_listeners E) extra) as Hfin.
  { intros [_ (E' & extra & _ & _ & Hi & Hf)]. by exists extra. }
  assert (invoked (run this c w) = invoked w ->
          exists extra, invoked (run this c w) = invoked w ++ extra /\
                        Forall (from_listeners E) extra) as Hnone.
  { intros ->. exists []. by rewrite app_nil_r. }
  pose proof (calling_start this w E Hw He) as Hc.
  destruct c; cbn [run] in *.
  1:{ apply Hnone. by destruct (getHTML_world this w) as [->|[ed ->]]. }
  11-14: apply Hnone;
    first [apply add_invoked | apply update_invoked | apply constructor_invoked].
  11:{ apply Hfin. by apply deliver_calling. }
  all: apply Hfin; revert Hc.
  all: unfold setHTML, removeFormat, insertHTML, insertText, deleteText,
         getText, getLength, isBlank, getSelection, setSelection.
  all: match goal with
       | |- calling ?t ?w0 ?E0 ?w1 -> calling ?t ?w0 ?E0 (?m ?w1).2 =>
           cut (keeps (calling t w0 E0) m); [intros Hk; by apply (Hk w1)|]
       end.
  all: repeat first
         [ apply keeps_calling_Quill_call
         | apply keeps_ret
         | apply keeps_bind; [|intros ?]
         | match goal with |- keeps _ (if ?b then _ else _) => destruct b end ].
Qed.


(** *** Two facades *)

(** X10: a facade constructed beside a wired one has a widget and an
    emitter of its own, and both are wired.  Subscribing on one of them,
    with whatever arguments, changes nothing in the calls an event of the
    other's widget causes. *)
Theorem facades_do_not_share_events a w container options b w' :
  wired a w ->
  constructor container options w = (Ok b, w') ->
  _quill b <> _quill a /\ _emitter b <> _emitter a /\
  wired a w' /\ wired b w' /\
  (forall args event,
     invoked (notify (_quill a) (on b args w').2 event)
       = invoked (notify (_quill a) w' event)) /\
  (forall args event,
     invoked (notify (_quill b) (on a args w').2 event)
       = invoked (notify (_quill b) w' event)).
Proof.
  intros Hwa Hc.
  pose proof (constructor_wired _ _ _ _ _ Hc) as Hwb.
  assert (wired a w') as Hwa'.
  { pose proof (preserves_constructor a container options w Hwa) as Hp.
    by rewrite Hc in Hp. }
  apply constructor_run in Hc as (doc & d & cls & _ & _ & Hb & _).
  pose proof Hwa as [(qo & Hq & _) Hea].
  assert (_quill b <> _quill a) as Hnq
    by (rewrite Hb; simpl; apply fresh_quill; eauto).
  assert (_emitter b <> _emitter a) as Hne
    by (rewrite Hb; simpl; by apply fresh_emitter).
  do 4 (split; [done|]).
  assert (forall x y, wired x w' -> wired y w' -> _emitter y <> _emitter x ->
            forall args event,
              invoked (notify (_quill x) (on y args w').2 event)
              = invoked (notify (_quill x) w' event)) as Hiso.
  { intros x y Hx Hy Hxy args event.
    pose proof Hx as [_ [Ex Hex]].
    pose proof Hy as [_ [Ey Hey]].
    pose proof (preserves_EventEmitter_add x false args) as Hx'.
    assert (wired x (on y args w').2 /\
            emitters (on y args w').2 !! _emitter x = Some Ex /\
            invoked (on y args w').2 = invoked w') as (Hx2 & Hex2 & Hi2).
    { unfold on, EventEmitter_add. destruct (negb _); [done|].
      rewrite (EventEmitter_update_run _ _ _ Ey) by done. cbn [snd].
      split; [|split; [|done]].
      - apply (wired_frame x w'); [done | done |]. intros _. simpl.
        by rewrite lookup_insert_ne.
      - simpl. by rewrite lookup_insert_ne. }
    unfold notify.
    destruct (deliver_wired_run x w' event Ex Hx Hex) as [k ->].
    destruct (deliver_wired_run x _ event Ex Hx2 Hex2) as [k' ->].
    destruct (String.eqb "text-change" event.1); [|done].
    cbn [snd invoked set_invoked]. by rewrite Hi2. }
  split; [by apply Hiso | apply Hiso; done].
Qed.

(** X11: what [getHTML] returns or throws is decided by the mount element
    and what is below it: two processes that hold the same mount element
    give the same result, whatever their widgets, emitters, registry and
    other elements are. *)
Theorem getHTML_reads_the_mount_only this w1 w2 :
  (forall r, targetEl this = Js.VObject r -> nodes w1 !! r = nodes w2 !! r) ->
  (getHTML this w1).1 = (getHTML this w2).1.
Proof.
  intros Hsame.
  destruct (targetEl this) as [| | | | | | |r|] eqn:Ht;
    try (rewrite !getHTML_not_element by (intros ?; congruence); done).
  specialize (Hsame r eq_refl).
  destruct (nodes w1 !! r) as [target|] eqn:Hr.
  2:{ rewrite !getHTML_not_element; [done | |];
        intros r0 E; rewrite Ht in E; injection E as <-; congruence. }
  destruct (Dom.querySelector (ByClass "ql-editor") target) as [p|] eqn:Hq.
  2:{ by rewrite (getHTML_missing this w1 r target), (getHTML_missing this w2 r target). }
  destruct (querySelector_Some _ _ _ Hq) as (ed & Hed & _).
  by rewrite (getHTML_found this w1 r target p ed), (getHTML_found this w2 r target p ed).
Qed.

(** X14: the facade neither translates nor swallows what the widget answers.
    [getText], [getLength], [isBlank], [getSelection] and [setSelection]
    return the widget's value or throw the widget's exception; [setHTML],
    [removeFormat] and [deleteText] throw the widget's exception and
    otherwise return nothing, whatever the widget returned.  The one
    exception that comes before the widget's answer is that of a listener
    that threw while the widget reported its events: it reaches the caller
    as it is, and there is none when the handlers of the facade do not
    throw. *)
Theorem widget_results_pass_through this args w qo :
  quills w !! _quill this = Some qo ->
  let answer method arguments :=
    match interruption (_quill this) method arguments w with
    | Some e => inl e
    | None =>
        returned (Quill_method method arguments (formats w) (document qo) (nodes w))
    end in
  let value (r : Js.exn + Js.value) :=
    match r with inl e => Throw e | inr v => Ok v end in
  let nothing (r : Js.exn + Js.value) :=
    match r with inl e => Throw e | inr _ => Ok tt end in
  (getText this w).1 = value (answer "getText" []) /\
  (getLength this w).1 = value (answer "getLength" []) /\
  (isBlank this w).1 = value (answer "editor.isBlank" []) /\
  (getSelection this args w).1 = value (answer "getSelection" [Js.arg 0 args]) /\
  (setSelection this args w).1
    = value (answer "setSelection" [Js.arg 0 args; Js.arg 1 args]) /\
  (setHTML this args w).1
    = nothing (answer "pasteHTML" [Js.logical_or (Js.arg 0 args) (Js.VString "")]) /\
  (removeFormat this args w).1
    = nothing (answer "removeFormat" [Js.arg 0 args; Js.arg 1 args]) /\
  (deleteText this args w).1
    = nothing (answer "deleteText" [Js.arg 0 args; Js.arg 1 args]) /\
  (forall E,
     functional this w ->
     emitters w !! _emitter this = Some E ->
     (forall log f, f ∈ functions "text-change" E -> call_throws log f [] = None) ->
     forall method arguments,
       answer method arguments
       = returned (Quill_method method arguments (formats w) (document qo) (nodes w))).
Proof.
  intros Hq. cbn zeta.
  assert (forall method arguments,
            (Quill_call (_quill this) method arguments w).1 =
            match
              match interruption (_quill this) method arguments w with
              | Some e => inl e
              | None => returned (Quill_method method arguments (formats w)
                                    (document qo) (nodes w))
              end
            with inl e => Throw e | inr v => Ok v end) as Hvalue.
  { intros method arguments. rewrite (Quill_call_result _ qo) by done.
    by destruct (interruption _ _ _ w). }
  assert (forall method arguments,
            (bind (Quill_call (_quill this) method arguments) (fun _ => ret tt) w).1 =
            match
              match interruption (_quill this) method arguments w with
              | Some e => inl e
              | None => returned (Quill_method method arguments (formats w)
                                    (document qo) (nodes w))
              end
            with inl e => Throw e | inr _ => Ok tt end) as Hnothing.
  { intros method arguments. specialize (Hvalue method arguments). revert Hvalue.
    unfold bind. destruct (Quill_call _ _ _ w) as [[v|e] w1]; simpl.
    all: destruct (interruption _ _ _ w); [congruence|].
    all: destruct (returned _); congruence. }
  unfold getText, getLength, isBlank, getSelection, setSelection, setHTML,
    removeFormat, deleteText.
  repeat split; try first [apply Hvalue | apply Hnothing].
  intros E Hf He Hquiet method arguments.
  by rewrite (interruption_quiet this w E).
Qed.

(** *** Constructions that fail *)



(** *** What the normalization leaves alone *)

Lemma textContent_unfold a kids :
  textContent (Element a kids) = textContents kids.
Proof.
  unfold textContents. cbn [textContent].
  induction kids as [|k kids IH]; [done|]. cbn [foldr]. by rewrite IH.
Qed.

Lemma textContents_alter_selected sel g kids :
  Forall (fun k => textContent (alter_selected sel g k) = textContent k) kids ->
  textContents (alter_selected sel g <$> kids) = textContents kids.
Proof.
  unfold textContents. induction 1 as [|k kids Hk Hks IH]; [done|].
  cbn [fmap list_fmap foldr]. by rewrite Hk, IH.
Qed.

Lemma textContent_alter_selected sel g n :
  textContent (alter_selected sel g n) = textContent n.
Proof.
  induction n as [s|a kids IH] using node_rect'; [done|].
  cbn [alter_selected]. rewrite !textContent_unfold.
  by apply textContents_alter_selected.
Qed.

(** Setting a declaration moves no other declaration past another. *)
Lemma filter_set_declaration (keep : string -> bool) prop val decls :
  keep prop = false ->
  List.filter (fun d : string * string => keep d.1) (set_declaration prop val decls)
  = List.filter (fun d : string * string => keep d.1) decls.
Proof.
  intros Hk. induction decls as [|[n v] rest IH]; cbn [set_declaration fst].
  - cbn [List.filter fst]. by rewrite Hk.
  - destruct (String.eqb n prop) eqn:En.
    + apply String.eqb_eq in En. subst n.
      cbn [List.filter fst]. rewrite Hk.
      destruct (existsb _ rest).
      * rewrite List.filter_app. cbn [List.filter fst]. rewrite Hk, app_nil_r.
        clear IH. induction rest as [|[n v'] rest IH]; [done|].
        cbn [List.filter fst]. destruct (String.eqb n prop) eqn:En; cbn [negb].
        -- apply String.eqb_eq in En. subst n. by rewrite Hk.
        -- cbn [List.filter fst]. by rewrite IH.
      * cbn [List.filter fst]. by rewrite Hk.
    + cbn [List.filter fst]. by rewrite IH.
Qed.

Lemma filter_set_each (keep : string -> bool) props val decls :
  forallb (fun p => negb (keep p)) props = true ->
  List.filter (fun d : string * string => keep d.1) (set_each props val decls)
  = List.filter (fun d : string * string => keep d.1) decls.
Proof.
  unfold set_each. revert decls. induction props as [|p props IH]; intros decls; [done|].
  cbn [forallb foldl]. intros [Hp Hps]%andb_true_iff. apply negb_true_iff in Hp.
  rewrite IH by done. by apply filter_set_declaration.
Qed.

Lemma outside_box_longhands prop :
  outside_box prop = true ->
  longhands prop = [prop] /\
  is_in (physical "margin") prop = false /\
  is_in (physical "padding") prop = false.
Proof.
  unfold outside_box, covers. intros [Hm Hp]%andb_true_iff.
  apply negb_true_iff in Hm, Hp. cbn [is_in existsb] in Hm, Hp.
  apply orb_false_iff in Hm as [Hm Hm'], Hp as [Hp Hp'].
  split; [|by split]. unfold longhands, box_shorthands. cbn [is_in existsb].
  by rewrite Hm, Hp.
Qed.

Lemma zero_box_outside a prop :
  outside_box prop = true ->
  getPropertyValue prop (style (zero_box a)) = getPropertyValue prop (style a).
Proof.
  intros (Hl & Hm & Hp)%outside_box_longhands.
  unfold getPropertyValue. rewrite Hl. unfold zero_box, setProperty. cbn [style].
  change (longhands "padding") with (physical "padding").
  change (longhands "margin") with (physical "margin").
  by rewrite !declared_set_each_out.
Qed.

Lemma zero_box_order a :
  List.filter (fun d : string * string => outside_box d.1) (style (zero_box a))
  = List.filter (fun d : string * string => outside_box d.1) (style a).
Proof.
  unfold zero_box, setProperty. cbn [style].
  change (longhands "padding") with (physical "padding").
  change (longhands "margin") with (physical "margin").
  by rewrite !filter_set_each.
Qed.

Lemma same_but_box_alter_selected n :
  same_but_box n (alter_selected (ByTag "p") zero_box n) /\
  (selects (ByTag "p") n = false ->
   style_of (alter_selected (ByTag "p") zero_box n) = style_of n).
Proof.
  destruct n as [s|a kids]; [done|]. cbn [alter_selected].
  destruct (selects (ByTag "p") (Element a kids)) eqn:E.
  - split; [|done]. simpl. repeat split; try done.
    + symmetry. apply zero_box_order.
    + intros prop Hp. symmetry. by apply zero_box_outside.
  - split; [|done]. simpl. done.
Qed.

Lemma node_at_alter_selected sel g p n :
  node_at p (alter_selected sel g n) = alter_selected sel g <$> node_at p n.
Proof.
  revert n. induction p as [|i p IH]; intros n; [done|].
  destruct n as [s|a kids]; [done|]. cbn [alter_selected node_at children].
  rewrite list_lookup_fmap. destruct (kids !! i) as [k|]; [|done]. simpl. apply IH.
Qed.

(** X12: the content [getHTML] hands out has the nodes of the editable
    element's content, one for one and at the same places; each has the tag,
    the classes, the other attributes and every inline style declaration
    other than the margin and padding of its four sides, in the order they
    had (the declarations of the logical sides, such as
    [margin-inline-start], among them); an element that is not a [p] has
    its whole style, and the text is the same. *)
Theorem getHTML_changes_the_box_only this w r target p :
  targetEl this = Js.VObject r ->
  nodes w !! r = Some target ->
  Dom.querySelector (ByClass "ql-editor") target = Some p ->
  exists ed content,
    node_at p target = Some ed /\
    content = parseHTML (serializeHTML (children ed)) /\
    (getHTML this w).1 = Ok (serializeHTML (exported ed)) /\
    length (exported ed) = length content /\
    textContents (exported ed) = textContents content /\
    (forall i path,
       (exported ed !! i ≫= node_at path) =
       alter_selected (ByTag "p") zero_box <$> (content !! i ≫= node_at path)) /\
    (forall m, same_but_box m (alter_selected (ByTag "p") zero_box m) /\
               (selects (ByTag "p") m = false ->
                style_of (alter_selected (ByTag "p") zero_box m) = style_of m)) /\
    outside_box "margin-inline-start" = true /\
    outside_box "padding-block-end" = true /\
    outside_box "color" = true.
Proof.
  intros Ht Hr Hq. destruct (querySelector_Some _ _ _ Hq) as (ed & Hed & _).
  exists ed, (parseHTML (serializeHTML (children ed))).
  split; [done|]. split; [done|]. split.
  { by rewrite (getHTML_found this w r target p ed Ht Hr Hq Hed). }
  unfold exported, normalize_paragraphs. split; [by rewrite length_fmap|]. split.
  { apply textContents_alter_selected, Forall_forall.
    intros k _. apply textContent_alter_selected. }
  split; [|split; [|done]].
  - intros i path. rewrite list_lookup_fmap.
    destruct (parseHTML (serializeHTML (children ed)) !! i) as [k|]; [|done].
    simpl. apply node_at_alter_selected.
  - apply same_but_box_alter_selected.
Qed.


(** *** Unsubscribing *)

Lemma strict_equal_function v h :
  is_function h = true -> Js.strict_equal v h = true <-> v = h.
Proof.
  intros [r ->]%is_function_object. destruct v; simpl; try (split; congruence).
  rewrite Pos.eqb_eq. split; congruence.
Qed.

Lemma given_function h : is_function h = true -> given h = Some h.
Proof. by intros [r ->]%is_function_object. Qed.

Lemma listens_unfold {F} ev (l : Emitter.listener F) :
  Emitter.listens ev l = Js.strict_equal (Emitter.event l) (Js.VString ev).
Proof. done. Qed.

(** [off(ev, h)] with a function [h]. *)
Lemma off_run this ev h w E :
  emitters w !! _emitter this = Some E ->
  is_function h = true ->
  off this [Js.VString ev; h] w =
  (Ok tt,
   set_emitters
     (<[_emitter this :=
          List.filter (fun l => negb (Emitter.listens ev l &&
                                      Js.strict_equal (Emitter.fn l) h)) E]>
        (emitters w)) w).
Proof.
  intros He Hh. unfold off, EventEmitter_remove.
  change (Js.arg 0 [Js.VString ev; h]) with (Js.VString ev).
  change (Js.arg 1 [Js.VString ev; h]) with h.
  change (Js.arg 2 [Js.VString ev; h]) with Js.VUndefined.
  change (Js.arg 3 [Js.VString ev; h]) with Js.VUndefined.
  cbn zeta. rewrite (EventEmitter_update_run _ _ _ E) by done.
  rewrite given_function by done. do 3 f_equal.
  unfold Emitter.remove. apply List.filter_ext. intros l.
  cbn [Js.ToBoolean andb property_key]. by rewrite !orb_false_r, <- negb_andb.
Qed.

(** [off(ev)] without a function. *)
Lemma off_event_run this ev w E :
  emitters w !! _emitter this = Some E ->
  off this [Js.VString ev] w =
  (Ok tt,
   set_emitters
     (<[_emitter this := List.filter (fun l => negb (Emitter.listens ev l)) E]>
        (emitters w)) w).
Proof.
  intros He. unfold off, EventEmitter_remove.
  change (Js.arg 0 [Js.VString ev]) with (Js.VString ev).
  change (Js.arg 1 [Js.VString ev]) with Js.VUndefined.
  cbn zeta. by rewrite (EventEmitter_update_run _ _ _ E) by done.
Qed.

Lemma listens_other {F} ev ev' (l : Emitter.listener F) :
  ev' <> ev -> Emitter.listens ev l = true -> Emitter.listens ev' l = false.
Proof.
  intros Hne. unfold Emitter.listens, Emitter.keyed.
  destruct (Emitter.event l); simpl; try done.
  intros ->%String.eqb_eq. by apply String.eqb_neq.
Qed.

(** X9: [off(ev, h)] with a function [h] leaves the emitter without any
    listener of [ev] that calls [h], whether added by [on] or by [once] and
    however many times, and with every other listener where it was; a
    [text-change] the widget reports afterwards never calls a function
    unsubscribed from [text-change], whatever the other listeners do.
    [off(ev, h)] after [on(ev, h)] on an emitter where [h] did not listen to
    [ev] restores the process.  [off(ev)] alone removes every listener of
    [ev] and no other. *)
Theorem off_removes_the_handler this w E ev h :
  wired this w ->
  emitters w !! _emitter this = Some E ->
  is_function h = true ->
  let w' := (off this [Js.VString ev; h] w).2 in
  (exists E',
     emitters w' !! _emitter this = Some E' /\
     (h ∉ functions ev E') /\
     (forall l, l ∈ E' <-> l ∈ E /\ ~ (Emitter.listens ev l = true /\ Emitter.fn l = h)) /\
     (forall ev', ev' <> ev -> Emitter.listeners ev' E' = Emitter.listeners ev' E) /\
     E' `sublist_of` E) /\
  (ev = "text-change" ->
   forall payload, exists extra,
     invoked (notify (_quill this) w' ("text-change", payload)) = invoked w ++ extra /\
     Forall (fun i => i.1 <> h) extra) /\
  (h ∉ functions ev E ->
   (off this [Js.VString ev; h] (on this [Js.VString ev; h] w).2).2 = w) /\
  (exists E'',
     emitters (off this [Js.VString ev] w).2 !! _emitter this = Some E'' /\
     Emitter.listeners ev E'' = [] /\
     (forall ev', ev' <> ev -> Emitter.listeners ev' E'' = Emitter.listeners ev' E)).
Proof.
  intros Hw He Hh. cbn zeta.
  pose proof (run_preserves_wired this (Off [Js.VString ev; h]) w Hw) as Hw'.
  cbn [run] in Hw'. revert Hw'. rewrite (off_run this ev h w E) by done. cbn [snd].
  set (E' := List.filter _ E). intros Hw'.
  assert (emitters (set_emitters (<[_emitter this := E']> (emitters w)) w)
            !! _emitter this = Some E') as He'
    by (simpl; by rewrite lookup_insert_eq).
  assert (h ∉ functions ev E') as Hgone.
  { unfold functions, Emitter.listeners, E'. intros (l & -> & Hl)%list_elem_of_fmap.
    apply list_elem_of_In, filter_In in Hl as [Hl Hev].
    apply filter_In in Hl as [_ Hl]. rewrite Hev in Hl.
    by rewrite (proj2 (strict_equal_function _ _ Hh)) in Hl. }
  split; [|split; [|split]].
  - exists E'. split; [done|]. split; [done|]. split; [|split].
    + intros l. unfold E'. rewrite !list_elem_of_In, filter_In.
      rewrite negb_true_iff, andb_false_iff.
      split.
      * intros [Hl [Hn|Hn]]; (split; [done|]); intros [? Hf]; [congruence|].
        apply (strict_equal_function _ _ Hh) in Hf. congruence.
      * intros [Hl Hn]. split; [done|].
        destruct (Emitter.listens ev l) eqn:El; [right | by left].
        apply not_true_is_false. intros Hf%(strict_equal_function _ _ Hh).
        apply Hn. by split.
    + intros ev' Hne. unfold Emitter.listeners, E'. rewrite filter_filter_andb.
      apply List.filter_ext. intros l.
      destruct (Emitter.listens ev l) eqn:El; [|by simpl].
      by rewrite (listens_other ev ev' l Hne El), andb_false_r.
    + unfold E'. clear. induction E as [|l E IH]; [done|]. simpl.
      destruct (negb _); [by apply sublist_skip | by apply sublist_cons].
  - intros -> payload.
    destruct (deliver_wired_run this _ ("text-change", payload) E' Hw' He') as [k Hk].
    cbn [fst] in Hk. rewrite String.eqb_refl in Hk. unfold notify. rewrite Hk.
    eexists. split; [done|]. cbn [invoked set_emitters].
    eapply Forall_impl; [apply attempts_calls|]. intros i [Hi _] Heq. apply Hgone. by rewrite <- Heq.
  - intros Hnot. unfold on. rewrite (EventEmitter_add_run _ _ _ _ _ E) by done.
    cbn [snd]. erewrite off_run; [|simpl; by rewrite lookup_insert_eq|done].
    cbn [snd]. destruct w as [d fm qs hs es inv]. unfold set_emitters. simpl in *. f_equal.
    rewrite insert_insert_eq. unfold Emitter.add. rewrite List.filter_app.
    cbn [List.filter Emitter.fn]. rewrite listens_unfold. cbn [Emitter.event Js.strict_equal].
    rewrite String.eqb_refl, (proj2 (strict_equal_function h h Hh)) by done.
    cbn [andb negb].
    rewrite app_nil_r.
    replace (List.filter _ E) with E; [by apply insert_id|].
    symmetry. rewrite <- (filter_all E) at 2. apply filter_ext_in. intros l Hl.
    apply negb_true_iff, andb_false_iff.
    destruct (Emitter.listens ev l) eqn:El; [right | by left].
    apply not_true_is_false. intros Hf%(strict_equal_function _ _ Hh).
    apply Hnot. unfold functions.
    apply list_elem_of_fmap. exists l. split; [done|].
    unfold Emitter.listeners. apply list_elem_of_In, filter_In. by split.
  - rewrite (off_event_run this ev w E) by done. cbn [snd].
    eexists. split; [simpl; by rewrite lookup_insert_eq|]. split.
    + unfold Emitter.listeners. rewrite filter_filter_andb.
      clear. induction E as [|l E IH]; [done|]. simpl.
      destruct (Emitter.listens ev l); simpl; apply IH.
    + intros ev' Hne. unfold Emitter.listeners. rewrite filter_filter_andb.
      apply List.filter_ext. intros l.
      destruct (Emitter.listens ev l) eqn:El; [|by simpl].
      by rewrite (listens_other ev ev' l Hne El).
Qed.


(** *** One-shot listeners *)

(** An emission none of whose listeners throws calls them all and drops the
    one-shot ones. *)
Lemma emit_loop_quiet em ev args snapshot :
  forall w E,
    emitters w !! em = Some E ->
    (forall log f, f ∈ Emitter.fn <$> snapshot ->
                   is_function f = true /\ call_throws log f args = None) ->
    emit_loop
      (fun f => EventEmitter_update em
                  (Emitter.remove Js.strict_equal (Js.VString ev) (given f)
                                  Js.VUndefined (Js.VBool true)))
      (fun f => invoke f args) snapshot w
    = (Ok tt,
       set_invoked (invoked w ++ ((fun f => (f, args)) <$> (Emitter.fn <$> snapshot)))
         (set_emitters (<[em := dropped ev snapshot E]> (emitters w)) w)).
Proof.
  induction snapshot as [|l rest IH]; intros w E He Hquiet.
  - cbn [fmap list_fmap emit_loop dropped foldl]. unfold ret. by rewrite world_same.
  - cbn [emit_loop fmap list_fmap dropped foldl].
    fold (dropped ev rest
            (if Emitter.once_only l
             then Emitter.remove Js.strict_equal (Js.VString ev) (given (Emitter.fn l))
                    Js.VUndefined (Js.VBool true) E
             else E)).
    set (E1 := if Emitter.once_only l then _ else E).
    assert ((if Emitter.once_only l
             then EventEmitter_update em
                    (Emitter.remove Js.strict_equal (Js.VString ev)
                       (given (Emitter.fn l)) Js.VUndefined (Js.VBool true))
             else ret tt) w
            = (Ok tt, set_emitters (<[em := E1]> (emitters w)) w)) as Hdrop.
    { unfold E1. destruct (Emitter.once_only l).
      - by apply EventEmitter_update_run.
      - unfold ret. f_equal. destruct w as [d fm qs hs es inv]. unfold set_emitters.
        simpl in *. by rewrite insert_id. }
    unfold bind at 1. rewrite Hdrop. unfold bind at 1. rewrite invoke_run.
    destruct (Hquiet (invoked w) (Emitter.fn l)) as [Hf Hc]; [left|].
    cbn [invoked set_emitters]. rewrite Hf, Hc.
    rewrite (IH _ E1).
    + cbn [invoked set_invoked set_emitters emitters]. f_equal.
      unfold set_invoked, set_emitters. cbn.
      by rewrite insert_insert_eq, <- app_assoc.
    + simpl. by rewrite lookup_insert_eq.
    + intros log f Hin. apply Hquiet. by right.
Qed.

Lemma remove_once ev f (E : Emitter.t Js.value) :
  is_function f = true ->
  Emitter.remove Js.strict_equal (Js.VString ev) (given f) Js.VUndefined (Js.VBool true) E
  = List.filter (fun x => negb (Emitter.listens ev x && Emitter.once_only x &&
                                Js.strict_equal (Emitter.fn x) f)) E.
Proof.
  intros Hf. rewrite given_function by done. unfold Emitter.remove.
  apply List.filter_ext. intros x. rewrite listens_unfold. fold (Emitter.keyed (Js.VString ev) x).
  cbn [Js.ToBoolean andb]. rewrite orb_false_r.
  by destruct (Emitter.keyed _ x), (Emitter.once_only x), (Js.strict_equal _ f).
Qed.

Lemma dropped_filter ev called :
  Forall (fun l => is_function (Emitter.fn l) = true) called ->
  forall E,
    dropped ev called E =
    List.filter (fun x => negb (Emitter.listens ev x && Emitter.once_only x &&
                                existsb (fun l => Emitter.once_only l &&
                                                  Js.strict_equal (Emitter.fn x) (Emitter.fn l))
                                        called)) E.
Proof.
  induction 1 as [|l called Hl Hcalled IH]; intros E.
  - cbn [dropped foldl existsb]. rewrite <- (filter_all E) at 1.
    apply List.filter_ext. intros x. by rewrite andb_false_r.
  - cbn [dropped foldl existsb].
    fold (dropped ev called
            (if Emitter.once_only l
             then Emitter.remove Js.strict_equal (Js.VString ev) (given (Emitter.fn l))
                    Js.VUndefined (Js.VBool true) E
             else E)).
    rewrite IH. destruct (Emitter.once_only l).
    + rewrite remove_once by done. rewrite filter_filter_andb.
      apply List.filter_ext. intros x. cbn [andb].
      by destruct (Emitter.listens ev x), (Emitter.once_only x),
           (Js.strict_equal (Emitter.fn x) (Emitter.fn l)), (existsb _ called).
    + done.
Qed.

(** After an emission that ran to its end the one-shot listeners of the
    event are gone, and no other. *)
Lemma dropped_persistent ev E :
  Forall (fun l => is_function (Emitter.fn l) = true) (Emitter.listeners ev E) ->
  dropped ev (Emitter.listeners ev E) E = persistent ev E.
Proof.
  intros Hf. rewrite dropped_filter by done. unfold persistent.
  apply filter_ext_in. intros x Hx. f_equal.
  destruct (Emitter.listens ev x) eqn:El; [|done].
  destruct (Emitter.once_only x) eqn:Eo; [|done]. cbn [andb].
  apply existsb_exists. exists x. split.
  - unfold Emitter.listeners. apply filter_In. by split.
  - rewrite Eo. cbn [andb]. apply strict_equal_function; [|done].
    rewrite Forall_forall in Hf. apply Hf. unfold Emitter.listeners.
    apply list_elem_of_In, filter_In. by split.
Qed.

Lemma persistent_add_once ev h ctx E :
  persistent ev (Emitter.add (Js.VString ev) h ctx true E) = persistent ev E.
Proof.
  unfold persistent, Emitter.add. rewrite List.filter_app. cbn [List.filter].
  rewrite listens_unfold. cbn [Emitter.event Emitter.once_only Js.strict_equal].
  rewrite String.eqb_refl. cbn [andb negb]. by rewrite app_nil_r.
Qed.

Lemma functions_persistent ev E :
  functions ev (persistent ev E) `sublist_of` functions ev E.
Proof.
  unfold functions, Emitter.listeners, persistent. apply fmap_sublist.
  induction E as [|l E IH]; [done|]. cbn [List.filter].
  destruct (Emitter.listens ev l) eqn:El; cbn [andb negb].
  - destruct (Emitter.once_only l); cbn [negb List.filter].
    + by apply sublist_cons.
    + rewrite El. by apply sublist_skip.
  - cbn [List.filter]. by rewrite El.
Qed.

(** X8: on a facade whose listeners are functions, a function subscribed
    with [once] to [text-change] is called at the next [text-change] the
    widget reports, after the listeners subscribed before it, provided none
    of them (nor the function) throws; the dispatch that ran to its end has
    dropped the one-shot listeners, so the [text-change] after it calls the
    listeners that were not one-shot, and the function only if it also
    listens in another way. *)
Theorem once_handler_called_once this w E h p1 p2 :
  functional this w ->
  emitters w !! _emitter this = Some E ->
  is_function h = true ->
  let fs := functions "text-change" E in
  (forall log f, f ∈ fs ++ [h] -> call_throws log f [] = None) ->
  let w1 := (once this [Js.VString "text-change"; h] w).2 in
  let w2 := notify (_quill this) w1 ("text-change", p1) in
  let w3 := notify (_quill this) w2 ("text-change", p2) in
  invoked w2 = invoked w ++ ((fun f => (f, [])) <$> fs) ++ [(h, [])] /\
  emitters w2 !! _emitter this = Some (persistent "text-change" E) /\
  invoked w3
    = invoked w2 ++ ((fun f => (f, [])) <$> functions "text-change"
                                              (persistent "text-change" E)) /\
  functions "text-change" (persistent "text-change" E) `sublist_of` fs.
Proof.
  intros [Hw Hfun] He Hh. cbn zeta. intros Hthrows.
  assert (forall log f, f ∈ functions "text-change" E ++ [h] ->
            is_function f = true /\ call_throws log f [] = None) as Hquiet.
  { intros log f Hin. split; [|by apply Hthrows].
    apply elem_of_app in Hin as [Hin|Hin].
    - pose proof (functions_functional "text-change" E (Hfun E He)) as Hfs.
      rewrite Forall_forall in Hfs. by apply Hfs.
    - by apply list_elem_of_singleton in Hin as ->. }
  pose proof (run_preserves_wired this (Once [Js.VString "text-change"; h]) w Hw) as Hw1.
  cbn [run] in Hw1. revert Hw1. unfold once.
  rewrite (EventEmitter_add_run _ _ _ _ _ E) by done. cbn [snd].
  set (E1 := Emitter.add _ _ _ _ E). set (w1 := set_emitters _ w). intros Hw1.
  assert (emitters w1 !! _emitter this = Some E1) as He1
    by (unfold w1; simpl; by rewrite lookup_insert_eq).
  assert (functions "text-change" E1 = functions "text-change" E ++ [h]) as Hfs
    by apply functions_add.
  pose proof Hw1 as [(qo & Hq & Hl) _].
  assert (deliver (_quill this) ("text-change", p1) w1
          = (Ok tt,
             set_invoked
               (invoked w ++ ((fun f => (f, [])) <$> functions "text-change" E) ++ [(h, [])])
               (set_emitters (<[_emitter this := persistent "text-change" E]>
                                (emitters w1)) w1))) as Hd1.
  { rewrite (deliver_wired this w1 _ qo Hq Hl). cbn [fst]. rewrite String.eqb_refl.
    unfold EventEmitter_emit. rewrite He1.
    rewrite (emit_loop_quiet _ _ _ _ _ E1 He1).
    - fold (functions "text-change" E1). rewrite Hfs, fmap_app.
      rewrite dropped_persistent.
      + unfold E1. by rewrite persistent_add_once.
      + apply Forall_forall. intros l Hin. apply (Hquiet []).
        rewrite <- Hfs. unfold functions. apply list_elem_of_fmap. exists l.
        by split.
    - intros log f Hin. apply Hquiet. by rewrite <- Hfs. }
  unfold notify. rewrite !Hd1. cbn [snd].
  set (w2 := set_invoked _ _).
  assert (wired this w2) as Hw2.
  { pose proof (deliver_preserves_wired this ("text-change", p1) w1 Hw1) as Hp.
    by rewrite Hd1 in Hp. }
  assert (emitters w2 !! _emitter this = Some (persistent "text-change" E)) as He2
    by (unfold w2; simpl; by rewrite lookup_insert_eq).
  split; [done|]. split; [done|]. split; [|apply functions_persistent].
  destruct (deliver_wired_run this w2 ("text-change", p2) _ Hw2 He2) as [k ->].
  cbn [fst]. rewrite String.eqb_refl. cbn [snd invoked set_invoked].
  rewrite attempts_complete; [done|]. apply attempts_none.
  intros log f Hin. apply Hquiet. apply elem_of_app. left.
  eapply elem_of_sublist; [done | apply functions_persistent].
Qed.

End InterfaceFacts.
End InterfaceFacts.
(** ** The facade at work in the sample process *)

Module Examples.
Import Dom Reference Editor Observe EditorFacts.

#[local] Existing Instance Sample.browser.
#[local] Existing Instance Sample.widget.
#[local] Existing Instance Sample.host.

Example constructor_sample :
  constructor (Js.VObject 1) Js.VUndefined Sample.world0
  = (Ok Sample.editor, Sample.world1).
Proof. reflexivity. Qed.

Example getHTML_sample :
  (getHTML Sample.editor Sample.world1).1
  = Ok ("<p style=" +:+ Sample.quote +:+ "margin: 0px; padding: 0px;" +:+
        Sample.quote +:+ ">Hello</p>").
Proof. reflexivity. Qed.

Example getHTML_bare :
  (getHTML Sample.bare_editor Sample.world1).1
  = Throw (Js.JsError "Couldn't find editor contents").
Proof. reflexivity. Qed.

(** An assignment to [margin] rewrites the sides that are declared where
    they stand and declares the others at the end; a side declared before a
    logical side of the same box moves to the end. *)
Example margin_in_place :
  setProperty "margin" "0px"
    [("margin-left", "3px"); ("color", "red"); ("padding-top", "1px")]
  = [("margin-left", "0px"); ("color", "red"); ("padding-top", "1px");
     ("margin-top", "0px"); ("margin-right", "0px"); ("margin-bottom", "0px")].
Proof. reflexivity. Qed.

Example margin_before_logical :
  setProperty "margin" "0px"
    [("margin-left", "3px"); ("margin-inline-start", "5px")]
  = [("margin-inline-start", "5px"); ("margin-top", "0px"); ("margin-right", "0px");
     ("margin-bottom", "0px"); ("margin-left", "0px")].
Proof. reflexivity. Qed.

(** The block as it is written after an assignment to [margin]. *)
Example margin_serialized :
  Sample.render_style
    (setProperty "margin" "0px"
       [("margin-left", "3px"); ("color", "red"); ("padding-top", "1px")])
  = " style=" +:+ Sample.quote +:+ "margin: 0px; color: red; padding-top: 1px;"
    +:+ Sample.quote.
Proof. reflexivity. Qed.

Example insertHTML_zero_sample :
  document <$> quills (insertHTML Sample.editor [Js.VString "x"; Js.zero]
                         Sample.world1).2 !! 1%positive
  = Some [("pasteHTML", [Js.zero; Js.VString "x"])].
Proof. reflexivity. Qed.

(** An index of [null] is supplied, not omitted, and the facade still asks the
    widget for the length and inserts there: the widget never sees [null]. *)
Lemma insertHTML_null_index_defaults :
  insertHTML Sample.editor [Js.VString "x"; Js.VNull] Sample.world1
    = insertHTML Sample.editor [Js.VString "x"] Sample.world1 /\
  document <$> quills (insertHTML Sample.editor [Js.VString "x"; Js.VNull]
                         Sample.world1).2 !! 1%positive
    = Some [("getLength", []);
            ("pasteHTML", [Js.of_pos 1; Js.VString "x"])] /\
  document <$> quills (pasteHTML_at Sample.editor Js.VNull (Js.VString "x")
                         Sample.world1).2 !! 1%positive
    = Some [("pasteHTML", [Js.VNull; Js.VString "x"])].
Proof. repeat split. Qed.

(** The same with the BigInt [0n], which is falsy and is not the number [0]. *)
Example insertHTML_bigint_zero_defaults :
  insertHTML Sample.editor [Js.VString "x"; Js.VBigInt 0] Sample.world1
    = insertHTML Sample.editor [Js.VString "x"] Sample.world1.
Proof. reflexivity. Qed.


Lemma getHTML_lookup_error_witness :
  targetEl Sample.editor = Js.VObject 1 /\
  nodes Sample.world1 !! 1%positive = Some Sample.mount /\
  ((getHTML Sample.editor Sample.world1).1
     = Throw (Js.JsError "Couldn't find editor contents")
     <-> ~ located (ByClass "ql-editor") Sample.mount) /\
  ((exists e, (getHTML Sample.editor Sample.world1).1 = Throw e)
     <-> ~ located (ByClass "ql-editor") Sample.mount) /\
  ((exists html, (getHTML Sample.editor Sample.world1).1 = Ok html)
     <-> located (ByClass "ql-editor") Sample.mount).
Proof.
  split; [reflexivity|]. split; [reflexivity|].
  apply (getHTML_lookup_error Sample.editor Sample.world1 1 Sample.mount);
    reflexivity.
Defined.

Lemma getHTML_zeroes_paragraphs_witness :
  Dom.querySelector (ByClass "ql-editor") Sample.mount = Some [0%nat] /\
  exists ed,
    node_at [0%nat] Sample.mount = Some ed /\
    (getHTML Sample.editor Sample.world1).1 = Ok (serializeHTML (exported ed)) /\
    exported ed =
      alter_selected (ByTag "p") zero_box <$> parseHTML (serializeHTML (children ed)) /\
    Forall (all_selected (ByTag "p") has_zero_box) (exported ed).
Proof.
  split; [reflexivity|].
  apply (getHTML_zeroes_paragraphs Sample.editor Sample.world1 1 Sample.mount);
    reflexivity.
Defined.


End Examples.

(** ** A process where a handler throws *)

Module FaultyExamples.
Import Dom Reference Editor Observe EditorFacts.

#[local] Existing Instance Sample.browser.
#[local] Existing Instance Sample.widget.
#[local] Existing Instance Faulty.host.



(** A one-shot listener behind the one that throws is not reached, and stays. *)
Example once_behind_a_throwing_handler :
  let w1 := (once Sample.editor [Js.VString "text-change"; Js.VObject 9] Faulty.world).2 in
  let w2 := notify (_quill Sample.editor) w1 ("text-change", []) in
  invoked w2 = [(Subscribed.h5, [])] /\
  functions "text-change" <$> emitters w2 !! _emitter Sample.editor
    = Some [Subscribed.h5; Subscribed.h7; Js.VObject 9].
Proof. split; reflexivity. Qed.

End FaultyExamples.

(** ** A process with a widget of its own *)

Module LinkingExamples.
Import Dom Reference Editor Observe EditorFacts.

#[local] Existing Instance Sample.browser.
#[local] Existing Instance Linking.widget.
#[local] Existing Instance Sample.host.

Example linking_constructor :
  constructor (Js.VObject 1) Js.VUndefined Linking.world0
  = (Ok Linking.editor, Linking.world1).
Proof. reflexivity. Qed.

(** The widget [1] was not created by the facade.  Before the construction
    it stores the destination of a link as given; after it, with the scheme
    the facade's sanitizer prepends. *)
Example other_widget_before :
  document <$> quills (Quill_call 1 "format" [Js.VString "link"; Js.VString "example.com"]
                         Linking.world0).2 !! 1%positive
  = Some ["http://example.org"; "example.com"].
Proof. reflexivity. Qed.

Example other_widget_after :
  document <$> quills (Quill_call 1 "format" [Js.VString "link"; Js.VString "example.com"]
                         Linking.world1).2 !! 1%positive
  = Some ["http://example.org"; "https://example.com"].
Proof. reflexivity. Qed.


End LinkingExamples.

(** ** The whole interface in the sample process *)

Module MoreExamples.
Import Dom Reference Editor EditorFacts Observe InterfaceFacts.

#[local] Existing Instance Sample.browser.
#[local] Existing Instance Sample.widget.
#[local] Existing Instance Sample.host.

Lemma sample_wired : wired Sample.editor Sample.world1.
Proof.
  split; [exists Sample.quill1; split; reflexivity | by eexists].
Qed.

Lemma subscribed_wired : wired Sample.editor Subscribed.world.
Proof.
  split; [exists Sample.quill1; split; reflexivity | by eexists].
Qed.

(** A second facade, on the other mount element. *)
Example second_facade :
  constructor (Js.VObject 2) Js.VUndefined Sample.world1
  = (Ok (Build (Js.VObject 2) 2 2),
     (constructor (Js.VObject 2) Js.VUndefined Sample.world1).2).
Proof. reflexivity. Qed.

(** A construction on something that is no element: the widget's constructor
    leaves an object it has not set up, subscribing on it throws, and the
    object and the emitter stay. *)
Example construction_without_container :
  (constructor Js.VUndefined Js.VUndefined Sample.world1).1
    = Throw (Js.TypeError "not a widget") /\
  husks (constructor Js.VUndefined Js.VUndefined Sample.world1).2 = {[ 2%positive ]} /\
  emitters (constructor Js.VUndefined Js.VUndefined Sample.world1).2 !! 2%positive
    = Some [] /\
  formats (constructor Js.VUndefined Js.VUndefined Sample.world1).2
    = formats Sample.world1.
Proof. repeat split. Qed.

(** An insertion without index, with the function [5] subscribed: the widget
    reports one change, the function is called once, with nothing. *)
Example insertHTML_notifies_subscriber :
  invoked (run Sample.editor (InsertHTML [Js.VString "x"]) Subscribed.world)
  = [(Subscribed.h5, [])].
Proof. reflexivity. Qed.

(** [off] with the event alone removes every listener of the event. *)
Example off_event_alone :
  emitters (off Sample.editor [Js.VString "text-change"] Subscribed.world_two).2
    !! _emitter Sample.editor
  = Some [].
Proof. reflexivity. Qed.

(** A listener that is no function is refused by the emitter. *)
Example on_without_function :
  (on Sample.editor [Js.VString "text-change"; Js.VString "handler"] Sample.world1).1
  = Throw (Js.TypeError "The listener must be a function").
Proof. reflexivity. Qed.

Lemma sanitizer_stays_installed_witness :
  constructor (Js.VObject 1) Js.VUndefined Sample.world0
    = (Ok Sample.editor, Sample.world1) /\
  sanitize <$> formats (run Sample.editor (SetHTML [Js.VString "<p>Hello</p>"])
                          (run Sample.editor (Construct (Js.VObject 2) Js.VUndefined)
                             Sample.world1))
               !! "formats/link"
    = Some Link.sanitize.
Proof.
  split; [reflexivity|].
  apply (sanitizer_stays_installed (Js.VObject 1) Js.VUndefined Sample.world0
           Sample.editor Sample.world1).
  - reflexivity.
  - apply reachable_call, reachable_call, reachable_start.
Defined.

Lemma handlers_called_by_the_facade_witness :
  emitters Subscribed.world !! _emitter Sample.editor = Some Subscribed.listeners /\
  exists extra,
    invoked (run Sample.editor (InsertHTML [Js.VString "x"]) Subscribed.world)
      = invoked Subscribed.world ++ extra /\
    Forall (fun i => i.2 = [] /\
                     exists l,
                       l ∈ Emitter.listeners "text-change" Subscribed.listeners /\
                       Emitter.fn l = i.1) extra.
Proof.
  split; [reflexivity|].
  apply (handlers_called_by_the_facade Sample.editor (InsertHTML [Js.VString "x"])
           Subscribed.world Subscribed.listeners).
  - split; [exists Sample.quill1; split; reflexivity | by eexists].
  - reflexivity.
Defined.

Lemma subscribed_functional : functional Sample.editor Subscribed.world.
Proof.
  split; [exact subscribed_wired|]. intros E [= <-]. by repeat constructor.
Qed.

Lemma once_handler_called_once_witness :
  functional Sample.editor Subscribed.world /\
  emitters Subscribed.world !! _emitter Sample.editor = Some Subscribed.listeners /\
  is_function Subscribed.h7 = true /\
  let w1 := (once Sample.editor [Js.VString "text-change"; Subscribed.h7]
               Subscribed.world).2 in
  let w2 := notify (_quill Sample.editor) w1 ("text-change", [Js.VString "delta"]) in
  let w3 := notify (_quill Sample.editor) w2 ("text-change", [Js.VString "delta"]) in
  invoked w2 = [(Subscribed.h5, []); (Subscribed.h7, [])] /\
  emitters w2 !! _emitter Sample.editor = Some Subscribed.listeners /\
  invoked w3 = [(Subscribed.h5, []); (Subscribed.h7, []); (Subscribed.h5, [])].
Proof.
  assert (is_function Subscribed.h7 = true) as Hf7 by reflexivity.
  split; [exact subscribed_functional|]. split; [reflexivity|]. split; [exact Hf7|].
  destruct (once_handler_called_once Sample.editor Subscribed.world
              Subscribed.listeners Subscribed.h7
              [Js.VString "delta"] [Js.VString "delta"] subscribed_functional eq_refl
              Hf7 (fun _ _ _ => eq_refl)) as (H2 & He & H3 & _).
  cbn zeta. split; [exact H2|]. split; [exact He|]. rewrite H3, H2. reflexivity.
Defined.

Lemma off_removes_the_handler_witness :
  wired Sample.editor Subscribed.world /\
  emitters Subscribed.world !! _emitter Sample.editor = Some Subscribed.listeners /\
  is_function Subscribed.h5 = true /\
  (exists extra,
     invoked (notify (_quill Sample.editor)
                (off Sample.editor [Js.VString "text-change"; Subscribed.h5]
                   Subscribed.world).2
                ("text-change", [Js.VString "delta"]))
       = invoked Subscribed.world ++ extra /\
     Forall (fun i => i.1 <> Subscribed.h5) extra) /\
  (Subscribed.h7 ∉ functions "text-change" Subscribed.listeners ->
   (off Sample.editor [Js.VString "text-change"; Subscribed.h7]
      (on Sample.editor [Js.VString "text-change"; Subscribed.h7]
         Subscribed.world).2).2
   = Subscribed.world).
Proof.
  assert (is_function Subscribed.h5 = true) as Hf5 by reflexivity.
  assert (is_function Subscribed.h7 = true) as Hf7 by reflexivity.
  split; [exact subscribed_wired|]. split; [reflexivity|]. split; [exact Hf5|].
  destruct (off_removes_the_handler Sample.editor Subscribed.world
              Subscribed.listeners "text-change" Subscribed.h5
              subscribed_wired eq_refl Hf5) as (_ & Hcalls & _ & _).
  destruct (off_removes_the_handler Sample.editor Subscribed.world
              Subscribed.listeners "text-change" Subscribed.h7
              subscribed_wired eq_refl Hf7) as (_ & _ & Hround & _).
  split; [exact (Hcalls eq_refl [Js.VString "delta"]) | exact Hround].
Defined.

Lemma facades_do_not_share_events_witness :
  wired Sample.editor Sample.world1 /\
  _quill (Build (Js.VObject 2) 2 2) <> _quill Sample.editor /\
  _emitter (Build (Js.VObject 2) 2 2) <> _emitter Sample.editor /\
  wired Sample.editor (constructor (Js.VObject 2) Js.VUndefined Sample.world1).2 /\
  wired (Build (Js.VObject 2) 2 2)
        (constructor (Js.VObject 2) Js.VUndefined Sample.world1).2 /\
  (forall args event,
     invoked (notify (_quill Sample.editor)
                (on (Build (Js.VObject 2) 2 2) args
                   (constructor (Js.VObject 2) Js.VUndefined Sample.world1).2).2
                event)
     = invoked (notify (_quill Sample.editor)
                  (constructor (Js.VObject 2) Js.VUndefined Sample.world1).2 event)) /\
  (forall args event,
     invoked (notify (_quill (Build (Js.VObject 2) 2 2))
                (on Sample.editor args
                   (constructor (Js.VObject 2) Js.VUndefined Sample.world1).2).2
                event)
     = invoked (notify (_quill (Build (Js.VObject 2) 2 2))
                  (constructor (Js.VObject 2) Js.VUndefined Sample.world1).2 event)).
Proof.
  split; [exact sample_wired|].
  apply (facades_do_not_share_events Sample.editor Sample.world1
           (Js.VObject 2) Js.VUndefined (Build (Js.VObject 2) 2 2)
           (constructor (Js.VObject 2) Js.VUndefined Sample.world1).2 sample_wired).
  reflexivity.
Defined.

Lemma getHTML_reads_the_mount_only_witness :
  (forall r, targetEl Sample.editor = Js.VObject r ->
             nodes Sample.world0 !! r = nodes Sample.world1 !! r) /\
  (getHTML Sample.editor Sample.world0).1 = (getHTML Sample.editor Sample.world1).1.
Proof.
  assert (forall r, targetEl Sample.editor = Js.VObject r ->
                    nodes Sample.world0 !! r = nodes Sample.world1 !! r) as Hsame.
  { intros r _. reflexivity. }
  split; [exact Hsame|].
  apply (getHTML_reads_the_mount_only Sample.editor Sample.world0 Sample.world1 Hsame).
Defined.

Lemma getHTML_changes_the_box_only_witness :
  Dom.querySelector (ByClass "ql-editor") Sample.mount = Some [0%nat] /\
  exists ed content,
    node_at [0%nat] Sample.mount = Some ed /\
    content = parseHTML (serializeHTML (children ed)) /\
    (getHTML Sample.editor Sample.world1).1 = Ok (serializeHTML (exported ed)) /\
    length (exported ed) = length content /\
    textContents (exported ed) = textContents content /\
    (forall i path,
       (exported ed !! i ≫= node_at path) =
       alter_selected (ByTag "p") zero_box <$> (content !! i ≫= node_at path)) /\
    (forall m, same_but_box m (alter_selected (ByTag "p") zero_box m) /\
               (selects (ByTag "p") m = false ->
                style_of (alter_selected (ByTag "p") zero_box m) = style_of m)) /\
    outside_box "margin-inline-start" = true /\
    outside_box "padding-block-end" = true /\
    outside_box "color" = true.
Proof.
  split; [reflexivity|].
  apply (getHTML_changes_the_box_only Sample.editor Sample.world1 1 Sample.mount);
    reflexivity.
Defined.

Lemma widget_results_pass_through_witness :
  quills Sample.world1 !! _quill Sample.editor = Some Sample.quill1 /\
  (getLength Sample.editor Sample.world1).1 = Ok (Js.of_pos 1) /\
  (deleteText Sample.editor [Js.zero; Js.of_pos 1] Sample.world1).1 = Ok tt.
Proof.
  split; [reflexivity|].
  pose proof (widget_results_pass_through Sample.editor [Js.zero; Js.of_pos 1]
                Sample.world1 Sample.quill1 eq_refl) as (_ & Hl & _ & _ & _ & _ & _ & Hd & _).
  split; [exact Hl | exact Hd].
Defined.

End MoreExamples.

(** ** The facade over a widget that fails *)

Module BrokenExamples.
Import Dom Reference Editor EditorFacts Observe InterfaceFacts.

#[local] Existing Instance Sample.browser.
#[local] Existing Instance Broken.widget.
#[local] Existing Instance Sample.host.

Lemma missing_index_getLength_failure_witness :
  quills Broken.world1 !! _quill Broken.editor = Some Broken.quill1 /\
  index_missing Js.VUndefined = true /\
  insertHTML Broken.editor [Js.VString "x"; Js.VUndefined] Broken.world1
    = (Throw (Js.Raised (Js.VString "getLength")),
       (getLength Broken.editor Broken.world1).2) /\
  insertText Broken.editor [Js.VString "x"; Js.VString "bold"; Js.VUndefined]
      Broken.world1
    = (Throw (Js.Raised (Js.VString "getLength")),
       (getLength Broken.editor Broken.world1).2).
Proof.
  split; [reflexivity|]. split; [reflexivity|].
  destruct (missing_index_getLength_failure Broken.editor (Js.VString "x")
              (Js.VString "x") (Js.VString "bold") Js.VUndefined Broken.world1
              (Js.Raised (Js.VString "getLength")) eq_refl) as [Hstop Hthrows].
  apply Hstop. apply (Hthrows Broken.quill1); reflexivity.
Defined.

End BrokenExamples.
